(** * tabarules.processing: column labelling for association-rule mining

    A shallow embedding of [src/tabarules/processing.py] and the
    properties of its three labelers, the column dispatcher and the
    row assembler.

    Conventions of the model.
    - A pandas Series carries the default RangeIndex, so a label is a
      position and a Series is the list of its cells.
    - A numeric cell is [option Z]: [None] is NaN, [Some z] the number z.
      Integer-valued data is what the model covers; order and equality on
      such floats agree with [Z].
    - A cell of an object column is [option string]: [None] is the missing
      marker.
    - An output Series is [list (option string)]: [None] is [np.nan].
    - Python exceptions are results [Raise e]. Indexing a Series with a
      list that holds an absent label raises [KeyError], as pandas does from
      version 1.0 on (earlier versions do so when no label of the list is
      present, which is the only case the failure results below rest on).
    - [ceil((i+1) / cutoffs * len_series)] is evaluated in binary64, as
      Python does, with the Standard Library's [SpecFloat]. *)

From Stdlib Require Import ZArith SpecFloat Sorting.Sorted Sorting.Permutation.
From stdpp Require Import base list strings pretty gmap.

Local Open Scope Z_scope.

(** ** Exceptions and the error monad *)

Inductive exn : Set :=
| IndexError | KeyError | NameError | TypeError
| ValueError | OverflowError | ZeroDivisionError.

Definition exn_name (e : exn) : string :=
  match e with
  | IndexError => "IndexError"
  | KeyError => "KeyError"
  | NameError => "NameError"
  | TypeError => "TypeError"
  | ValueError => "ValueError"
  | OverflowError => "OverflowError"
  | ZeroDivisionError => "ZeroDivisionError"
  end.

Inductive result (A : Type) : Type :=
| Ok (a : A)
| Raise (e : exn).
Arguments Ok {A} a.
Arguments Raise {A} e.

Definition bind {A B} (m : result A) (k : A -> result B) : result B :=
  match m with
  | Ok a => k a
  | Raise e => Raise e
  end.

Notation "'let!' x ':=' m 'in' k" := (bind m (fun x => k))
  (at level 10, x name, m at level 100, k at level 200).

Fixpoint traverse {A B} (f : A -> result B) (l : list A) : result (list B) :=
  match l with
  | [] => Ok []
  | x :: l' => let! y := f x in let! ys := traverse f l' in Ok (y :: ys)
  end.

(** [raises r name]: the call ended in an exception of the class [name]. *)
Definition raises {A} (r : result A) (name : string) : Prop :=
  exists e, r = Raise e /\ exn_name e = name.


(** ** Python and numpy primitives *)

(** [range(n)] *)
Definition range (n : Z) : list Z := Z.of_nat <$> seq 0 (Z.to_nat n).

(** binary64, for the one float expression of the module *)
Definition prec : Z := 53.
Definition emax : Z := 1024.

(** [float(z)]: the nearest binary64 number *)
Definition py_float (z : Z) : spec_float := binary_normalize prec emax z 0 false.

(** [a / b] on ints below 2^53, where the quotient of the converted
    operands is the correctly rounded quotient Python returns *)
Definition true_div (a b : Z) : result spec_float :=
  if b =? 0 then Raise ZeroDivisionError
  else Ok (SFdiv prec emax (py_float a) (py_float b)).

(** [math.ceil] *)
Definition ceil (f : spec_float) : result Z :=
  match f with
  | S754_zero _ => Ok 0
  | S754_finite s m e =>
      let v := if s then Z.neg m else Z.pos m in
      Ok (if 0 <=? e then v * 2 ^ e else - ((- v) / 2 ^ (- e)))
  | S754_infinity _ => Raise OverflowError
  | S754_nan => Raise ValueError
  end.

(** [a[k]] on a numpy array: a negative index counts from the end *)
Definition ndarray_getitem {A} (a : list A) (k : Z) : result A :=
  let n := Z.of_nat (length a) in
  let k' := if k <? 0 then k + n else k in
  if (0 <=? k') && (k' <? n) then
    match a !! Z.to_nat k' with
    | Some x => Ok x
    | None => Raise IndexError
    end
  else Raise IndexError.

(** [l[k]] on a Python list, for the non-negative indices the module uses *)
Definition list_getitem {A} (l : list A) (k : nat) : result A :=
  match l !! k with
  | Some x => Ok x
  | None => Raise IndexError
  end.

(** [s[keys]] on a Series with a RangeIndex: selection by label *)
Definition series_getitem_list {A} (s : list A) (keys : list Z) : result (list A) :=
  traverse (fun k =>
              if (0 <=? k) && (k <? Z.of_nat (length s)) then
                match s !! Z.to_nat k with
                | Some x => Ok x
                | None => Raise KeyError
                end
              else Raise KeyError) keys.

(** [Series.sort_values()] on numbers: the ascending arrangement *)
Fixpoint insert_sorted (x : Z) (l : list Z) : list Z :=
  match l with
  | [] => [x]
  | y :: l' => if x <=? y then x :: l else y :: insert_sorted x l'
  end.

Definition sort_values (l : list Z) : list Z := foldr insert_sorted [] l.

(** [Series.unique()]: the distinct cells in order of first appearance *)
Fixpoint unique {A} `{EqDecision A} (l : list A) : list A :=
  match l with
  | [] => []
  | x :: l' => x :: filter (fun y => y <> x) (unique l')
  end.

(** [pd.isna] on a cell *)
Definition isna {A} (c : option A) : bool :=
  match c with
  | None => true
  | Some _ => false
  end.

(** the non-missing cells, [series[not_nas[0]]] *)
Definition not_na {A} (series : list (option A)) : list A := omap id series.

(** ** Series *)

Inductive dtype : Set := int64 | float64.

(** [str(val)] of a numpy scalar below 1e16 *)
Definition str (dt : dtype) (val : Z) : string :=
  match dt with
  | int64 => pretty val
  | float64 => pretty val +:+ ".0"
  end.

Inductive Series : Type :=
| NumSeries (dt : dtype) (cells : list (option Z))
| ObjSeries (cells : list (option string)).

Definition shape0 (s : Series) : nat :=
  match s with
  | NumSeries _ cells => length cells
  | ObjSeries cells => length cells
  end.

Definition default_cutoffs : Z := 4.
Definition default_which_yes : Z := 1.
(** [['label', 'return_na'][1]] *)
Definition default_na_action : string := "return_na".

(** ** float_processer *)

(** [series[i] <= cutoff_vals[j]]; a comparison with NaN is false *)
Definition cell_le (x : option Z) (c : Z) : bool :=
  match x with
  | Some v => v <=? c
  | None => false
  end.

(** [ceil((i+1) / cutoffs * len_series)] *)
Definition cutoff_index (i cutoffs len_series : Z) : result Z :=
  let! q := true_div (i + 1) cutoffs in
  ceil (SFmul prec emax q (py_float len_series)).

Arguments cutoff_index : simpl never.

Definition cutoff_val_ind (cutoffs len_series : Z) : result (list Z) :=
  traverse (fun i => cutoff_index i cutoffs len_series) (range (cutoffs - 1)).

Definition cutoff_vals (series : list (option Z)) (cutoffs : Z) : result (list Z) :=
  let not_na_series := not_na series in
  let len_series := Z.of_nat (length not_na_series) in
  let series_sorted := sort_values not_na_series in
  let! ind := cutoff_val_ind cutoffs len_series in
  series_getitem_list series_sorted ind.

Definition str_labels (dt : dtype) (title : string) (cutoffs : Z) (cutoff_vals : list Z)
  : result (list string) :=
  let labels := (fun val => title +:+ "_lessthan_" +:+ str dt val) <$> cutoff_vals in
  let! last := ndarray_getitem cutoff_vals (cutoffs - 2) in
  Ok (labels ++ [title +:+ "_morethan_" +:+ str dt last]).

(** The loop over [j]: what it appends to [output_list] for one cell. *)
Fixpoint scan_cutoffs (x : option Z) (cutoff_vals : list Z) (labels : list string)
    (js : list nat) : result (list string) :=
  match js with
  | [] => Ok []
  | j :: js' =>
      let! c := ndarray_getitem cutoff_vals (Z.of_nat j) in
      if cell_le x c then
        let! l := list_getitem labels j in Ok [l]
      else if (Z.of_nat j =? Z.of_nat (length cutoff_vals) - 1) then
        let! l := list_getitem labels (length cutoff_vals) in Ok [l]
      else scan_cutoffs x cutoff_vals labels js'
  end.

(** One turn of the loop over [i]. *)
Definition float_cell (title na_action : string) (cutoff_vals : list Z)
    (labels : list string) (x : option Z) : result (list (option string)) :=
  if isna x && String.eqb na_action "label" then Ok [Some (title +:+ "_is_na")]
  else if isna x && String.eqb na_action "return_na" then Ok [None]
  else let! ls := scan_cutoffs x cutoff_vals labels (seq 0 (length cutoff_vals)) in
       Ok (Some <$> ls).

Definition float_processer (dt : dtype) (series : list (option Z)) (title : string)
    (cutoffs : Z) (na_action : string) : result (list (option string)) :=
  let! cv := cutoff_vals series cutoffs in
  let! labels := str_labels dt title cutoffs cv in
  let! out := traverse (float_cell title na_action cv labels) series in
  Ok (concat out).

(** ** boolean_processer *)

(** One turn of the loop over [i]; [str_labels[0]] is "<title>_no" and
    [str_labels[1]] is "<title>_yes". *)
Definition boolean_cell (title : string) (which_yes : Z) (na_action : string)
    (x : option Z) : list (option string) :=
  if isna x && String.eqb na_action "label" then [Some (title +:+ "_is_na")]
  else if isna x && String.eqb na_action "return_na" then [None]
  else if bool_decide (x = Some which_yes) then [Some (title +:+ "_yes")]
  else [Some (title +:+ "_no")].

Definition boolean_processer (series : list (option Z)) (title : string)
    (which_yes : Z) (na_action : string) : result (list (option string)) :=
  Ok (concat (boolean_cell title which_yes na_action <$> series)).

(** ** cat_processer *)

(** The loop over [j]: one append for every equal distinct value; the bare
    [next] of the source is an expression without effect. *)
Definition cat_scan (title : string) (unique_vals : list string) (x : option string)
  : list (option string) :=
  (fun val => Some (title +:+ "_is_" +:+ val)) <$>
    filter (fun val => x = Some val) unique_vals.

(** One turn of the loop over [i]. *)
Definition cat_cell (title na_action : string) (unique_vals : list string)
    (x : option string) : list (option string) :=
  if isna x && String.eqb na_action "label" then [Some (title +:+ "_is_na")]
  else if isna x && String.eqb na_action "return_na" then [None]
  else cat_scan title unique_vals x.

Definition cat_processer (series : list (option string)) (title na_action : string)
  : result (list (option string)) :=
  let unique_vals := unique (not_na series) in
  Ok (concat (cat_cell title na_action unique_vals <$> series)).

(** ** list_featurize_series *)

Inductive labeler : Set := Categorical | Boolean | Continuous.

(** [np.array_equal(series.unique()[~pd.isna(series.unique())], np.array([0,1]))] *)
Definition only_boolean (cells : list (option Z)) : bool :=
  bool_decide (not_na (unique cells) = [0; 1]).

Definition classify (s : Series) : labeler :=
  match s with
  | ObjSeries _ => Categorical
  | NumSeries _ cells => if only_boolean cells then Boolean else Continuous
  end.

Definition list_featurize_series (series : Series) (title : string) (cutoffs which_yes : Z)
    (na_action : string) : result (list (option string)) :=
  match series with
  | ObjSeries cells => cat_processer cells title na_action
  | NumSeries dt cells =>
      if only_boolean cells then boolean_processer cells title which_yes na_action
      else float_processer dt cells title cutoffs na_action
  end.

(** ** list_featurize_df *)

(** A dataframe: [shape[0]] and the columns in order, each under its label.
    Column labels are distinct, so [df[column]] is a Series. *)
Record DataFrame : Type := {
  df_shape0 : nat;
  df_columns : list (string * Series)
}.

Definition valid_df (df : DataFrame) : Prop :=
  NoDup (fst <$> df_columns df) /\
  Forall (fun c => shape0 (snd c) = df_shape0 df) (df_columns df).

(** [df_out]: the length of its RangeIndex and its columns of labels. *)
Record LabelFrame : Type := {
  lf_index : nat;
  lf_columns : list (string * list (option string))
}.

(** [pd.DataFrame()] *)
Definition empty_frame : LabelFrame := {| lf_index := 0; lf_columns := [] |}.

(** Alignment of a Series on a RangeIndex of length [n]: labels beyond the
    index are dropped, absent ones are filled with NaN. *)
Definition reindex (n : nat) (col : list (option string)) : list (option string) :=
  take n col ++ replicate (n - length col) None.

(** [df_out[column] = out_series]: a frame whose index is empty takes the
    index of a non-empty value, otherwise the value is aligned on the
    frame's index. *)
Definition frame_setitem (df_out : LabelFrame) (column : string)
    (out_series : list (option string)) : LabelFrame :=
  if (lf_index df_out =? 0)%nat && negb (length out_series =? 0)%nat then
    {| lf_index := length out_series;
       lf_columns := (prod_map id (reindex (length out_series)) <$> lf_columns df_out)
                     ++ [(column, out_series)] |}
  else
    {| lf_index := lf_index df_out;
       lf_columns := lf_columns df_out ++ [(column, reindex (lf_index df_out) out_series)] |}.

(** [df_out.loc[i].values] *)
Definition frame_loc (df_out : LabelFrame) (i : nat) : result (list (option string)) :=
  if (i <? lf_index df_out)%nat then
    Ok ((fun c => mjoin (snd c !! i)) <$> lf_columns df_out)
  else Raise KeyError.

(** The loop over [df.columns]. *)
Fixpoint featurize_columns (columns : list (string * Series)) (df_out : LabelFrame)
  : result LabelFrame :=
  match columns with
  | [] => Ok df_out
  | (column, series) :: rest =>
      let! out_series := list_featurize_series series column default_cutoffs
                           default_which_yes default_na_action in
      featurize_columns rest (frame_setitem df_out column out_series)
  end.

(** The body of [list_featurize_df]; [index_list] is not used by it. *)
Definition list_featurize_df (df : DataFrame) : result (list (list string)) :=
  let! df_out := featurize_columns (df_columns df) empty_frame in
  traverse (fun i => let! row := frame_loc df_out i in Ok (not_na row))
           (seq 0 (df_shape0 df)).

(** ** Execution of the module

    Importing the module runs its statements in order over the module's
    global names. A [def] evaluates the default values of its parameters
    when it is executed, in the global scope; the outermost iterable of a
    comprehension is evaluated there too. *)

Definition builtins : gset string :=
  {[ "range"; "len"; "print"; "str"; "next" ]}.

(** Reading a name that is neither global nor built in. *)
Definition load_name (globals : gset string) (name : string) : result unit :=
  if bool_decide (name ∈ globals ∪ builtins) then Ok tt else Raise NameError.

Definition exec_import (name : string) (globals : gset string) : result (gset string) :=
  Ok ({[ name ]} ∪ globals).

(** [def name(...)]: [default_names] are the names read by the default
    expressions, in the order they are read. Only these reads are
    modelled: what a default expression does with the values (attribute
    access, call) is not, so [Ok] says no more than that every name was
    bound. *)
Definition exec_def (name : string) (default_names : list string) (globals : gset string)
  : result (gset string) :=
  let! u := traverse (load_name globals) default_names in
  Ok ({[ name ]} ∪ globals).

Definition processing_py (globals : gset string) : result (gset string) :=
  let! g := exec_import "os" globals in
  let! g := exec_import "np" g in
  let! g := exec_import "pd" g in
  let! g := exec_import "mlxtend" g in
  let! g := exec_import "ceil" g in
  let! g := exec_def "float_processer" [] g in
  let! g := exec_def "boolean_processer" [] g in
  let! g := exec_def "cat_processer" [] g in
  let! g := exec_def "list_featurize_series" [] g in
  exec_def "list_featurize_df" ["range"; "df"] g.

(** ** Closed forms and the notions of the specification *)

(** The bucket of a cell, in the words of the specification: the position
    of the first cutoff the value does not exceed, and the number of
    cutoffs when it exceeds them all. *)
Fixpoint bucket_of (x : option Z) (cv : list Z) : nat :=
  match cv with
  | [] => 0
  | c :: cv' => if cell_le x c then 0 else S (bucket_of x cv')
  end.

(** The label of bucket [j]: "lessthan" its cutoff, and "morethan" the last
    cutoff for the bucket past them all. *)
Definition label_of (dt : dtype) (title : string) (cv : list Z) (j : nat) : string :=
  match cv !! j with
  | Some c => title +:+ "_lessthan_" +:+ str dt c
  | None => title +:+ "_morethan_" +:+ str dt (default 0 (last cv))
  end.

(** The entry [float_processer] computes for one cell, in closed form
    (lemma [float_processer_unfold]). *)
Definition float_label (dt : dtype) (title na_action : string) (cv : list Z)
    (x : option Z) : option string :=
  if isna x && String.eqb na_action "label" then Some (title +:+ "_is_na")
  else if isna x && String.eqb na_action "return_na" then None
  else Some (label_of dt title cv (bucket_of x cv)).

(** What the specification says of the label of a non-missing value [x]
    under the cutoffs [cv]: it is the label of the first cutoff, scanning
    [cv] in order, that [x] does not exceed, and the final "morethan"
    label when [x] exceeds every cutoff. *)
Definition first_cutoff_label (dt : dtype) (title : string) (cv : list Z) (x : Z)
    (label : string) : Prop :=
  let b := bucket_of (Some x) cv in
  (b <= length cv)%nat /\
  (forall j c, cv !! j = Some c -> (j < b)%nat -> c < x) /\
  (forall c, cv !! b = Some c ->
     x <= c /\ label = title +:+ "_lessthan_" +:+ str dt c) /\
  (b = length cv ->
     (forall c, c ∈ cv -> c < x) /\
     label = title +:+ "_morethan_" +:+ str dt (default 0 (last cv))).

(** The position of the specification: [ceil((i+1) / cutoffs * n)], in
    exact arithmetic, counted from one. *)
Definition spec_position (i cutoffs n : Z) : Z :=
  - ((- ((i + 1) * n)) / cutoffs).


(** The entry [boolean_processer] computes for one cell, in closed form
    (lemma [boolean_processer_unfold]). *)
Definition boolean_label (title : string) (which_yes : Z) (na_action : string)
    (x : option Z) : option string :=
  if isna x && String.eqb na_action "label" then Some (title +:+ "_is_na")
  else if isna x && String.eqb na_action "return_na" then None
  else if bool_decide (x = Some which_yes) then Some (title +:+ "_yes")
  else Some (title +:+ "_no").

(** What [cat_processer] appends for one cell, in closed form (lemma
    [cat_processer_unfold]). *)
Definition cat_label (title na_action : string) (x : option string)
  : list (option string) :=
  match x with
  | Some v => [Some (title +:+ "_is_" +:+ v)]
  | None =>
      if String.eqb na_action "label" then [Some (title +:+ "_is_na")]
      else if String.eqb na_action "return_na" then [None]
      else []
  end.

(** The outputs under "return_na" and under "label" differ exactly by
    the token "<title>_is_na" at the missing cells; both calls fail
    alike. *)
Definition policy_switch {A} (title : string) (series : list (option A))
    (r_exclude r_label : result (list (option string))) : Prop :=
  match r_exclude, r_label with
  | Ok ex, Ok lab =>
      length ex = length series /\ length lab = length series /\
      (forall i, series !! i = Some None ->
         ex !! i = Some None /\ lab !! i = Some (Some (title +:+ "_is_na"))) /\
      (forall i x, series !! i = Some (Some x) ->
         exists l, ex !! i = Some (Some l) /\ lab !! i = Some (Some l))
  | Raise e1, Raise e2 => e1 = e2
  | _, _ => False
  end.

(** The entry [cat_processer] computes for one cell under a recognized
    policy (lemma [cat_processer_recognized]). *)
Definition cat_label1 (title na_action : string) (x : option string) : option string :=
  match x with
  | Some v => Some (title +:+ "_is_" +:+ v)
  | None => if String.eqb na_action "label" then Some (title +:+ "_is_na") else None
  end.

(** What the labelers do under a policy that is neither "label" nor
    "return_na": both tests of the policy fail and a missing cell is
    handled as a value. *)
Definition unrecognized_policy (na_action : string) : Prop :=
  (forall (series : list (option Z)) title which_yes,
      boolean_processer series title which_yes na_action =
      Ok ((fun x => Some (if bool_decide (x = Some which_yes)
                          then title +:+ "_yes" else title +:+ "_no")) <$> series)) /\
  (forall (series : list (option string)) title,
      cat_processer series title na_action =
      Ok ((fun v => Some (title +:+ "_is_" +:+ v)) <$> not_na series)) /\
  (forall dt (series : list (option Z)) title cutoffs,
      ~ raises (float_processer dt series title cutoffs na_action) "InvalidConfiguration" /\
      (forall e, float_processer dt series title cutoffs na_action = Raise e <->
                 float_processer dt series title cutoffs "return_na" = Raise e) /\
      forall out, float_processer dt series title cutoffs na_action = Ok out ->
        exists cv, cutoff_vals series cutoffs = Ok cv /\
          length out = length series /\
          forall i, series !! i = Some None ->
            out !! i = Some (Some (title +:+ "_morethan_" +:+ str dt (default 0 (last cv))))).

(** The set of distinct non-missing values is {0, 1}. *)
Definition distinct_values_0_1 (cells : list (option Z)) : Prop :=
  forall z, Some z ∈ cells <-> z = 0 \/ z = 1.

(** The labelled columns [labelled] are what the dispatcher returns, with
    the default parameters, on the columns of the dataframe. *)
Definition labelled_columns (columns : list (string * Series))
    (labelled : list (list (option string))) : Prop :=
  Forall2 (fun c out =>
             list_featurize_series (snd c) (fst c) default_cutoffs default_which_yes
               default_na_action = Ok out) columns labelled.

(** The labels of row [i]: each labelled column gives its entry at [i]
    unless that entry is the missing marker, in column order. *)
Definition row_items (labelled : list (list (option string))) (i : nat) : list string :=
  omap (fun col => mjoin (col !! i)) labelled.

(** A dataframe of five rows with a continuous, a categorical and a
    boolean column, and its labelled columns. *)
Definition example_df : DataFrame :=
  {| df_shape0 := 5;
     df_columns :=
       [("x", NumSeries float64 [Some 1; None; Some 5; Some 7; Some 8]);
        ("c", ObjSeries [Some "a"; None; Some "b"; Some "a"; None]);
        ("b", NumSeries float64 [Some 0; None; Some 1; Some 0; None])] |}.

Definition example_labelled : list (list (option string)) :=
  [[Some "x_lessthan_5.0"; None; Some "x_lessthan_5.0"; Some "x_lessthan_7.0";
    Some "x_lessthan_8.0"];
   [Some "c_is_a"; None; Some "c_is_b"; Some "c_is_a"; None];
   [Some "b_no"; None; Some "b_yes"; Some "b_no"; None]].

(** The labels computed for [n] non-missing values are all labels of the
    sorted values. *)
Definition labels_present (cutoffs n : Z) : bool :=
  match cutoff_val_ind cutoffs n with
  | Ok ind => forallb (fun k => (0 <=? k) && (k <? n)) ind
  | Raise _ => false
  end.

(** The cell of a column at row [i] exists and is not missing. *)
Definition cell_present (s : Series) (i : nat) : bool :=
  match s with
  | NumSeries _ cells => bool_decide (is_Some (mjoin (cells !! i)))
  | ObjSeries cells => bool_decide (is_Some (mjoin (cells !! i)))
  end.

(** A call of one of the three labelers, the policy apart. *)
Inductive labeler_call : Type :=
| call_float (dt : dtype) (series : list (option Z)) (title : string) (cutoffs : Z)
| call_boolean (series : list (option Z)) (title : string) (which_yes : Z)
| call_cat (series : list (option string)) (title : string).

Definition call_with (c : labeler_call) (na_action : string)
  : result (list (option string)) :=
  match c with
  | call_float dt series title cutoffs => float_processer dt series title cutoffs na_action
  | call_boolean series title which_yes => boolean_processer series title which_yes na_action
  | call_cat series title => cat_processer series title na_action
  end.

Definition call_title (c : labeler_call) : string :=
  match c with
  | call_float _ _ title _ => title
  | call_boolean _ title _ => title
  | call_cat _ title => title
  end.

(** Which cells of the column of the call are missing. *)
Definition call_missing (c : labeler_call) : list bool :=
  match c with
  | call_float _ series _ _ => isna <$> series
  | call_boolean series _ _ => isna <$> series
  | call_cat series _ => isna <$> series
  end.

(** The output [lab] is the output [ex] with one token "<title>_is_na"
    added at each missing cell, where [ex] has the missing marker, and
    nothing else changed: both have one entry per cell and the same label
    at every cell that is not missing. *)
Definition token_added (title : string) (missing : list bool)
    (ex lab : list (option string)) : Prop :=
  length ex = length missing /\ length lab = length missing /\
  (forall i, missing !! i = Some true ->
     ex !! i = Some None /\ lab !! i = Some (Some (title +:+ "_is_na"))) /\
  (forall i, missing !! i = Some false ->
     exists l, ex !! i = Some (Some l) /\ lab !! i = Some (Some l)).

(** * Properties *)

(** ** The error monad *)

Lemma bind_Ok {A B} (m : result A) (k : A -> result B) (b : B) :
  bind m k = Ok b -> exists a, m = Ok a /\ k a = Ok b.
Proof. destruct m as [a|e]; simpl; [eauto | discriminate]. Qed.

Section traverse.
Context {A B : Type}.

Lemma traverse_length (f : A -> result B) (l : list A) (ys : list B) :
  traverse f l = Ok ys -> length ys = length l.
Proof.
  revert ys. induction l as [|x l IH]; simpl; intros ys H.
  - by inversion H.
  - apply bind_Ok in H as (y & _ & H). apply bind_Ok in H as (ys' & Hys & H).
    inversion H; subst. simpl. f_equal. by apply IH.
Qed.

Lemma traverse_lookup (f : A -> result B) (l : list A) (ys : list B) :
  traverse f l = Ok ys ->
  forall i x, l !! i = Some x -> exists y, ys !! i = Some y /\ f x = Ok y.
Proof.
  revert ys. induction l as [|x l IH]; simpl; intros ys H i x' Hi.
  - done.
  - apply bind_Ok in H as (y & Hy & H). apply bind_Ok in H as (ys' & Hys & H).
    inversion H; subst. destruct i as [|i]; simpl in *.
    + inversion Hi; subst. eauto.
    + eauto.
Qed.

Lemma traverse_total (f : A -> result B) (g : A -> B) (l : list A) :
  (forall x, x ∈ l -> f x = Ok (g x)) -> traverse f l = Ok (g <$> l).
Proof.
  induction l as [|x l IH]; simpl; intros H; [done|].
  rewrite H by left. simpl. rewrite IH; [done|].
  intros y Hy. apply H. by right.
Qed.

Lemma traverse_ext (f g : A -> result B) (l : list A) :
  (forall x, x ∈ l -> f x = g x) -> traverse f l = traverse g l.
Proof.
  induction l as [|x l IH]; simpl; intros H; [done|].
  rewrite H by left. rewrite IH; [done|].
  intros y Hy. apply H. by right.
Qed.

End traverse.

(** No exception of the module belongs to one of the error kinds the
    specification names. *)
Lemma exn_name_not_spec_kind (e : exn) :
  exn_name e <> "InvalidConfiguration" /\ exn_name e <> "TypeMismatch" /\
  exn_name e <> "EmptyColumn".
Proof. by destruct e. Qed.

(** ** Primitives *)

Lemma range_nonpos (n : Z) : n <= 0 -> range n = [].
Proof. intros H. unfold range. by replace (Z.to_nat n) with 0%nat by lia. Qed.

Lemma range_length (n : Z) : length (range n) = Z.to_nat n.
Proof. unfold range. by rewrite length_fmap, length_seq. Qed.

Lemma ndarray_getitem_nil {A} (k : Z) : ndarray_getitem (@nil A) k = Raise IndexError.
Proof.
  unfold ndarray_getitem. by destruct (_ && _).
Qed.

Lemma ndarray_getitem_nat {A} (a : list A) (j : nat) (c : A) :
  a !! j = Some c -> ndarray_getitem a (Z.of_nat j) = Ok c.
Proof.
  intros Hj. pose proof (lookup_lt_Some _ _ _ Hj) as Hlt.
  unfold ndarray_getitem.
  replace (Z.of_nat j <? 0) with false by lia.
  replace (0 <=? Z.of_nat j) with true by lia.
  replace (Z.of_nat j <? Z.of_nat (length a)) with true by lia.
  simpl. by rewrite Nat2Z.id, Hj.
Qed.

Lemma ndarray_getitem_Ok {A} (a : list A) (k : Z) (x : A) :
  ndarray_getitem a k = Ok x -> a <> [].
Proof. intros H ->. by rewrite ndarray_getitem_nil in H. Qed.


Lemma insert_sorted_perm (x : Z) (l : list Z) : Permutation (insert_sorted x l) (x :: l).
Proof.
  induction l as [|y l IH]; simpl; [done|].
  destruct (x <=? y); [done|]. rewrite IH. apply perm_swap.
Qed.

Lemma sort_values_perm (l : list Z) : Permutation (sort_values l) l.
Proof.
  induction l as [|x l IH]; simpl; [done|].
  by rewrite insert_sorted_perm, IH.
Qed.

Lemma insert_sorted_sorted (x : Z) (l : list Z) :
  Sorted Z.le l -> Sorted Z.le (insert_sorted x l).
Proof.
  induction 1 as [|y l Hl IH Hhd]; simpl.
  - repeat constructor.
  - destruct (x <=? y) eqn:Hxy.
    + constructor; [by constructor|]. constructor. lia.
    + constructor; [done|].
      destruct l as [|z l]; simpl in *.
      * constructor. lia.
      * inversion Hhd; subst. destruct (x <=? z); constructor; lia.
Qed.

Lemma sort_values_sorted (l : list Z) : Sorted Z.le (sort_values l).
Proof.
  induction l as [|x l IH]; simpl; [constructor|]. by apply insert_sorted_sorted.
Qed.

Lemma sort_values_length (l : list Z) : length (sort_values l) = length l.
Proof. apply Permutation_length, sort_values_perm. Qed.

(** ** float_processer *)

Lemma cutoff_val_ind_length (cutoffs n : Z) (ind : list Z) :
  cutoff_val_ind cutoffs n = Ok ind -> length ind = Z.to_nat (cutoffs - 1).
Proof.
  unfold cutoff_val_ind. intros H. apply traverse_length in H.
  by rewrite H, range_length.
Qed.

Lemma cutoff_vals_length (series : list (option Z)) (cutoffs : Z) (cv : list Z) :
  cutoff_vals series cutoffs = Ok cv -> length cv = Z.to_nat (cutoffs - 1).
Proof.
  unfold cutoff_vals. intros H. apply bind_Ok in H as (ind & Hind & H).
  apply traverse_length in H. rewrite H. by eapply cutoff_val_ind_length.
Qed.

Lemma bucket_of_le (x : option Z) (cv : list Z) : (bucket_of x cv <= length cv)%nat.
Proof. induction cv as [|c cv IH]; simpl; [lia|]. destruct (cell_le x c); lia. Qed.

Lemma bucket_of_drop (x : option Z) (cv : list Z) (j : nat) (c : Z) :
  cv !! j = Some c ->
  bucket_of x (drop j cv) = if cell_le x c then 0%nat else S (bucket_of x (drop (S j) cv)).
Proof.
  intros Hj. by rewrite (drop_S _ _ _ Hj).
Qed.

Lemma bucket_of_skip (x : option Z) (cv : list Z) (j : nat) :
  (forall i c, (i < j)%nat -> cv !! i = Some c -> cell_le x c = false) ->
  (j <= length cv)%nat ->
  bucket_of x cv = (j + bucket_of x (drop j cv))%nat.
Proof.
  revert cv. induction j as [|j IH]; intros cv H Hlen; [done|].
  destruct cv as [|c cv]; simpl in *; [lia|].
  rewrite (H 0%nat c) by (done || lia). f_equal. apply IH; [|lia].
  intros i c' Hi Hc. apply (H (S i) c'); [lia|done].
Qed.

Lemma str_labels_Ok (dt : dtype) (title : string) (cutoffs : Z) (cv : list Z)
    (labels : list string) :
  length cv = Z.to_nat (cutoffs - 1) ->
  str_labels dt title cutoffs cv = Ok labels ->
  cv <> [] /\ 2 <= cutoffs /\ length labels = S (length cv) /\
  forall j, (j <= length cv)%nat -> labels !! j = Some (label_of dt title cv j).
Proof.
  intros Hlen H. unfold str_labels in H.
  apply bind_Ok in H as (lastv & Hlast & H). inversion H; subst; clear H.
  pose proof (ndarray_getitem_Ok _ _ _ Hlast) as Hne.
  assert (0 < length cv)%nat as Hpos by (destruct cv; simpl; [done|lia]).
  assert (2 <= cutoffs) as Hc by lia.
  assert (is_Some (cv !! pred (length cv))) as [c Hc'] by (apply lookup_lt_is_Some; lia).
  replace (cutoffs - 2) with (Z.of_nat (pred (length cv))) in Hlast by lia.
  rewrite (ndarray_getitem_nat _ _ _ Hc') in Hlast. inversion Hlast; subst.
  split; [done|]. split; [done|]. split.
  - rewrite length_app, length_fmap. simpl. lia.
  - intros j Hj. unfold label_of.
    destruct (decide (j < length cv)%nat) as [Hlt|Hge].
    + rewrite lookup_app_l by (rewrite length_fmap; lia).
      rewrite list_lookup_fmap.
      destruct (lookup_lt_is_Some_2 cv j Hlt) as [c' ->]. done.
    + assert (j = length cv) as -> by lia.
      rewrite lookup_app_r by (rewrite length_fmap; lia).
      rewrite length_fmap, Nat.sub_diag. simpl.
      rewrite (lookup_ge_None_2 cv) by lia.
      by rewrite last_lookup, Hc'.
Qed.

(** The loop over [j] appends exactly the label of the cell's bucket. *)
Lemma scan_cutoffs_from (x : option Z) (cv : list Z) (labels : list string)
    (lab : nat -> string) (k j : nat) :
  (forall i, (i <= length cv)%nat -> labels !! i = Some (lab i)) ->
  (j + k = length cv)%nat -> (0 < k)%nat ->
  scan_cutoffs x cv labels (seq j k) = Ok [lab (j + bucket_of x (drop j cv))%nat].
Proof.
  intros Hlab. revert j. induction k as [|k IH]; intros j Hjk Hk; [lia|].
  simpl.
  assert (is_Some (cv !! j)) as [c Hc] by (apply lookup_lt_is_Some; lia).
  rewrite (ndarray_getitem_nat _ _ _ Hc). simpl.
  rewrite (bucket_of_drop _ _ _ _ Hc).
  destruct (cell_le x c).
  - unfold list_getitem. rewrite Hlab by lia. simpl. by rewrite Nat.add_0_r.
  - destruct (Z.of_nat j =? Z.of_nat (length cv) - 1) eqn:Hlast.
    + unfold list_getitem. rewrite Hlab by lia. simpl.
      rewrite drop_ge by lia. simpl. do 3 f_equal. lia.
    + rewrite IH by lia. do 3 f_equal. lia.
Qed.

Lemma concat_singletons {A B} (f : A -> B) (l : list A) :
  concat ((fun x => [f x]) <$> l) = f <$> l.
Proof. induction l as [|x l IH]; csimpl; [done|]. by rewrite IH. Qed.

Lemma float_cell_label (dt : dtype) (title na_action : string) (cutoffs : Z)
    (cv : list Z) (labels : list string) (x : option Z) :
  length cv = Z.to_nat (cutoffs - 1) ->
  str_labels dt title cutoffs cv = Ok labels ->
  float_cell title na_action cv labels x = Ok [float_label dt title na_action cv x].
Proof.
  intros Hlen Hl. destruct (str_labels_Ok _ _ _ _ _ Hlen Hl) as (Hne & _ & _ & Hlab).
  unfold float_cell, float_label.
  destruct (isna x && _); [done|]. destruct (isna x && _); [done|].
  rewrite (scan_cutoffs_from x cv labels (label_of dt title cv) (length cv) 0 Hlab);
    [done|lia|].
  destruct cv; simpl; [done|lia].
Qed.

(** [float_processer], loop by loop: one entry per cell. *)
Lemma float_processer_unfold (dt : dtype) (series : list (option Z)) (title : string)
    (cutoffs : Z) (na_action : string) :
  float_processer dt series title cutoffs na_action =
  let! cv := cutoff_vals series cutoffs in
  let! labels := str_labels dt title cutoffs cv in
  Ok (float_label dt title na_action cv <$> series).
Proof.
  unfold float_processer.
  destruct (cutoff_vals series cutoffs) as [cv|e] eqn:Hcv; simpl; [|done].
  destruct (str_labels dt title cutoffs cv) as [labels|e] eqn:Hl; simpl; [|done].
  rewrite (traverse_total _ (fun x => [float_label dt title na_action cv x])).
  - simpl. by rewrite concat_singletons.
  - intros x _. eapply float_cell_label; [|done]. by eapply cutoff_vals_length.
Qed.

Lemma float_processer_Ok (dt : dtype) (series : list (option Z)) (title : string)
    (cutoffs : Z) (na_action : string) (out : list (option string)) :
  float_processer dt series title cutoffs na_action = Ok out ->
  exists cv, cutoff_vals series cutoffs = Ok cv /\ cv <> [] /\ 2 <= cutoffs /\
             out = float_label dt title na_action cv <$> series.
Proof.
  rewrite float_processer_unfold. intros H.
  apply bind_Ok in H as (cv & Hcv & H). apply bind_Ok in H as (labels & Hl & H).
  inversion H; subst.
  destruct (str_labels_Ok _ _ _ _ _ (cutoff_vals_length _ _ _ Hcv) Hl) as (? & ? & _).
  eauto.
Qed.

Lemma bucket_of_before (x : Z) (cv : list Z) (j : nat) (c : Z) :
  cv !! j = Some c -> (j < bucket_of (Some x) cv)%nat -> c < x.
Proof.
  revert j. induction cv as [|c' cv IH]; intros j Hj Hlt; simpl in *; [lia|].
  destruct (x <=? c') eqn:Hx; [lia|].
  destruct j as [|j]; simpl in Hj.
  - inversion Hj; subst. lia.
  - apply (IH j); [done|lia].
Qed.

Lemma bucket_of_at (x : Z) (cv : list Z) (c : Z) :
  cv !! bucket_of (Some x) cv = Some c -> x <= c.
Proof.
  induction cv as [|c' cv IH]; simpl; [done|].
  destruct (x <=? c') eqn:Hx; simpl; [|done].
  intros H. inversion H; subst. lia.
Qed.

Lemma bucket_of_mono (x1 x2 : Z) (cv : list Z) :
  x1 <= x2 -> (bucket_of (Some x1) cv <= bucket_of (Some x2) cv)%nat.
Proof.
  intros Hx. induction cv as [|c cv IH]; simpl; [lia|].
  destruct (x1 <=? c) eqn:H1; destruct (x2 <=? c) eqn:H2; lia.
Qed.

Lemma label_of_first_cutoff (dt : dtype) (title : string) (cv : list Z) (x : Z) :
  first_cutoff_label dt title cv x (label_of dt title cv (bucket_of (Some x) cv)).
Proof.
  unfold first_cutoff_label, label_of. split; [apply bucket_of_le|]. split; [|split].
  - intros j c. apply bucket_of_before.
  - intros c Hc. rewrite Hc. split; [by eapply bucket_of_at|done].
  - intros Hb. split.
    + intros c Hin. apply list_elem_of_lookup in Hin as [j Hj].
      apply (bucket_of_before x cv j c Hj). rewrite Hb. by eapply lookup_lt_Some.
    + by rewrite Hb, (lookup_ge_None_2 cv).
Qed.

Lemma range_lookup (n : Z) (i : nat) :
  (i < Z.to_nat n)%nat -> range n !! i = Some (Z.of_nat i).
Proof.
  intros Hi. unfold range. by rewrite list_lookup_fmap, lookup_seq_lt.
Qed.

(** C1, as amended. When the cutoffs are computed, there are
    [cutoffs - 1] of them and the i-th is the cell of the ascending-sorted
    non-missing values at the label [ceil((i+1) / cutoffs * n)], evaluated
    in binary64; the labels of the sorted values count from zero, so this
    is the value at the 1-based position one past that number. *)
Theorem cutoff_vals_zero_based (series : list (option Z)) (cutoffs : Z) (cv : list Z) :
  cutoff_vals series cutoffs = Ok cv ->
  length cv = Z.to_nat (cutoffs - 1) /\
  forall i, (i < length cv)%nat ->
    exists k c,
      cutoff_index (Z.of_nat i) cutoffs (Z.of_nat (length (not_na series))) = Ok k /\
      0 <= k < Z.of_nat (length (not_na series)) /\
      sort_values (not_na series) !! Z.to_nat k = Some c /\
      cv !! i = Some c.
Proof.
  intros H. pose proof (cutoff_vals_length _ _ _ H) as Hlen. split; [done|].
  intros i Hi. unfold cutoff_vals in H.
  apply bind_Ok in H as (ind & Hind & H). unfold cutoff_val_ind in Hind.
  destruct (traverse_lookup _ _ _ Hind i (Z.of_nat i)) as (k & Hk & Hidx).
  { apply range_lookup. lia. }
  destruct (traverse_lookup _ _ _ H i k Hk) as (c & Hc & Hget).
  exists k, c. split; [done|].
  destruct (_ && _) eqn:Hb; [|done].
  destruct (_ !! Z.to_nat k) as [c'|] eqn:Hl; [|done].
  inversion Hget; subst. rewrite sort_values_length in Hb.
  split; [lia|done].
Qed.

Lemma cutoff_vals_zero_based_witness :
  length [3; 5; 7] = Z.to_nat (4 - 1) /\
  forall i, (i < length [3; 5; 7])%nat ->
    exists k c,
      cutoff_index (Z.of_nat i) 4
        (Z.of_nat (length (not_na (Some <$> [1; 2; 3; 4; 5; 6; 7; 8])))) = Ok k /\
      0 <= k < Z.of_nat (length (not_na (Some <$> [1; 2; 3; 4; 5; 6; 7; 8]))) /\
      sort_values (not_na (Some <$> [1; 2; 3; 4; 5; 6; 7; 8])) !! Z.to_nat k = Some c /\
      [3; 5; 7] !! i = Some c.
Proof.
  apply (cutoff_vals_zero_based (Some <$> [1; 2; 3; 4; 5; 6; 7; 8]) 4 [3; 5; 7]).
  vm_compute. reflexivity.
Defined.

(** C1 as stated fails. On the column [1, 2, 3, 4, 5, 6, 7, 8] with four
    bins the value at the 1-based position [ceil(2/4 * 8) = 4] of the
    sorted values is 4, but the labels 2, 4 and 6 select the cutoffs 3, 5
    and 7: the second cutoff is 5 and the value 4 is labelled
    "title_lessthan_5". *)
Lemma scenario_A_second_cutoff_is_5 :
  let series := Some <$> [1; 2; 3; 4; 5; 6; 7; 8] in
  spec_position 1 4 8 = 4 /\
  sort_values (not_na series) !! Z.to_nat (spec_position 1 4 8 - 1) = Some 4 /\
  cutoff_val_ind 4 8 = Ok [2; 4; 6] /\
  cutoff_vals series 4 = Ok [3; 5; 7] /\
  float_processer int64 series "title" 4 "return_na" =
    Ok (Some <$> ["title_lessthan_3"; "title_lessthan_3"; "title_lessthan_3";
                  "title_lessthan_5"; "title_lessthan_5"; "title_lessthan_7";
                  "title_lessthan_7"; "title_morethan_7"]) /\
  ~ (exists cv, cutoff_vals series 4 = Ok cv /\
                cv !! 1%nat = sort_values (not_na series)
                                !! Z.to_nat (spec_position 1 4 8 - 1)) /\
  ~ (exists out, float_processer int64 series "title" 4 "return_na" = Ok out /\
                 out !! 3%nat = Some (Some "title_lessthan_4")).
Proof.
  intros series.
  assert (cutoff_vals series 4 = Ok [3; 5; 7]) as Hcv by (by vm_compute).
  assert (float_processer int64 series "title" 4 "return_na" =
          Ok (Some <$> ["title_lessthan_3"; "title_lessthan_3"; "title_lessthan_3";
                        "title_lessthan_5"; "title_lessthan_5"; "title_lessthan_7";
                        "title_lessthan_7"; "title_morethan_7"])) as Hout
    by (by vm_compute).
  split; [by vm_compute|]. split; [by vm_compute|]. split; [by vm_compute|].
  split; [exact Hcv|]. split; [exact Hout|]. split.
  - intros (cv & Hcv' & Hsecond). rewrite Hcv in Hcv'. inversion Hcv'; subst.
    by vm_compute in Hsecond.
  - intros (out & Hout' & Hlabel). rewrite Hout in Hout'. inversion Hout'; subst.
    by vm_compute in Hlabel.
Qed.

(** C2, as amended. With [cutoffs < 2] no label is computed, the cutoff
    array is empty, and reading its entry [cutoffs - 2] raises
    [IndexError], whatever the column, the title and the policy. *)
Theorem float_processer_cutoffs_below_2 (dt : dtype) (series : list (option Z))
    (title : string) (cutoffs : Z) (na_action : string) :
  cutoffs < 2 ->
  float_processer dt series title cutoffs na_action = Raise IndexError.
Proof.
  intros Hc. unfold float_processer, cutoff_vals, cutoff_val_ind.
  rewrite range_nonpos by lia. simpl.
  unfold str_labels. by rewrite ndarray_getitem_nil.
Qed.

Lemma float_processer_cutoffs_below_2_witness :
  float_processer int64 (Some <$> [1; 2; 3; 4; 5; 6; 7; 8]) "title" 1 "return_na"
  = Raise IndexError.
Proof. apply float_processer_cutoffs_below_2. lia. Defined.

(** C2 as stated fails: with [cutoffs = 1] the exception is not an
    [InvalidConfiguration]. *)
Lemma float_processer_cutoffs_1_not_InvalidConfiguration :
  ~ raises (float_processer int64 (Some <$> [1; 2; 3; 4; 5; 6; 7; 8]) "title" 1 "return_na")
      "InvalidConfiguration".
Proof.
  intros (e & He & Hname). vm_compute in He. inversion He; subst. discriminate.
Qed.





(** C8. When the continuous labeler returns, every non-missing value [x]
    carries the label of the first cutoff [c], scanning the computed
    cutoffs in order, with [x <= c], and the final "morethan" label when it
    exceeds every cutoff; a value equal to a cutoff is in a "lessthan" bucket
    at or below that cutoff's; and the bucket index is monotone in the
    value. *)
Theorem float_processer_first_cutoff (dt : dtype) (series : list (option Z))
    (title : string) (cutoffs : Z) (na_action : string) (out : list (option string)) :
  float_processer dt series title cutoffs na_action = Ok out ->
  exists cv, cutoff_vals series cutoffs = Ok cv /\
    (forall i x, series !! i = Some (Some x) ->
       exists label, out !! i = Some (Some label) /\
                     label = label_of dt title cv (bucket_of (Some x) cv) /\
                     first_cutoff_label dt title cv x label) /\
    (forall j c, cv !! j = Some c ->
       (bucket_of (Some c) cv <= j)%nat /\ (bucket_of (Some c) cv < length cv)%nat) /\
    (forall x1 x2, x1 <= x2 ->
       (bucket_of (Some x1) cv <= bucket_of (Some x2) cv)%nat).
Proof.
  intros H. apply float_processer_Ok in H as (cv & Hcv & Hne & Hc & ->).
  exists cv. split; [done|]. split; [|split].
  - intros i x Hi. eexists. split; [|split; [done|]].
    + rewrite list_lookup_fmap, Hi. done.
    + apply label_of_first_cutoff.
  - intros j c Hj.
    assert (bucket_of (Some c) cv <= j)%nat as Hle.
    { destruct (decide (bucket_of (Some c) cv <= j)%nat) as [|Hgt]; [done|].
      pose proof (bucket_of_before c cv j c Hj). lia. }
    split; [done|]. apply lookup_lt_Some in Hj. lia.
  - intros x1 x2. apply bucket_of_mono.
Qed.

Lemma float_processer_first_cutoff_witness :
  exists cv, cutoff_vals (Some <$> [1; 2; 3; 4; 5; 6; 7; 8]) 4 = Ok cv /\
    (forall i x, (Some <$> [1; 2; 3; 4; 5; 6; 7; 8]) !! i = Some (Some x) ->
       exists label,
         (Some <$> ["t_lessthan_3"; "t_lessthan_3"; "t_lessthan_3"; "t_lessthan_5";
                    "t_lessthan_5"; "t_lessthan_7"; "t_lessthan_7"; "t_morethan_7"])
           !! i = Some (Some label) /\
         label = label_of int64 "t" cv (bucket_of (Some x) cv) /\
         first_cutoff_label int64 "t" cv x label) /\
    (forall j c, cv !! j = Some c ->
       (bucket_of (Some c) cv <= j)%nat /\ (bucket_of (Some c) cv < length cv)%nat) /\
    (forall x1 x2, x1 <= x2 ->
       (bucket_of (Some x1) cv <= bucket_of (Some x2) cv)%nat).
Proof.
  apply (float_processer_first_cutoff int64 (Some <$> [1; 2; 3; 4; 5; 6; 7; 8])
           "t" 4 "return_na").
  vm_compute. reflexivity.
Defined.

(** ** boolean_processer *)

Lemma boolean_processer_unfold (series : list (option Z)) (title : string)
    (which_yes : Z) (na_action : string) :
  boolean_processer series title which_yes na_action =
  Ok (boolean_label title which_yes na_action <$> series).
Proof.
  unfold boolean_processer. f_equal.
  rewrite <- (concat_singletons (boolean_label title which_yes na_action) series).
  f_equal. apply list_fmap_ext. intros _ x _.
  unfold boolean_cell, boolean_label.
  by repeat destruct (_ && _); try destruct (bool_decide _).
Qed.

(** C6, as amended. The Boolean labeler checks nothing and never fails: a
    non-missing value equal to [which_yes] is labelled "<title>_yes" and
    every other non-missing value, one outside 0 and 1 included, is
    labelled "<title>_no". *)
Theorem boolean_processer_unchecked (series : list (option Z)) (title : string)
    (which_yes : Z) (na_action : string) :
  exists out, boolean_processer series title which_yes na_action = Ok out /\
    length out = length series /\
    forall i x, series !! i = Some (Some x) ->
      out !! i = Some (Some (if bool_decide (x = which_yes) then title +:+ "_yes"
                             else title +:+ "_no")).
Proof.
  rewrite boolean_processer_unfold. eexists. split; [done|].
  split; [by rewrite length_fmap|].
  intros i x Hi. rewrite list_lookup_fmap, Hi. simpl. unfold boolean_label. simpl.
  destruct (decide (x = which_yes)) as [->|Hne].
  - by rewrite !bool_decide_eq_true_2.
  - rewrite !bool_decide_eq_false_2; [done|done|congruence].
Qed.

(** C6 as stated fails: the value 2 is labelled "title_no" and no
    [TypeMismatch] is raised. *)
Lemma boolean_processer_no_TypeMismatch :
  boolean_processer [Some 0; Some 2; Some 1] "title" 1 "return_na"
    = Ok [Some "title_no"; Some "title_no"; Some "title_yes"] /\
  ~ raises (boolean_processer [Some 0; Some 2; Some 1] "title" 1 "return_na")
      "TypeMismatch".
Proof.
  split; [by vm_compute|]. intros (e & He & _). by vm_compute in He.
Qed.

(** ** cat_processer *)

Lemma elem_of_unique {A} `{EqDecision A} (x : A) (l : list A) : x ∈ unique l <-> x ∈ l.
Proof.
  induction l as [|y l IH]; simpl; [done|].
  rewrite !elem_of_cons, list_elem_of_filter, IH.
  destruct (decide (x = y)); tauto.
Qed.

Lemma NoDup_unique {A} `{EqDecision A} (l : list A) : NoDup (unique l).
Proof.
  induction l as [|y l IH]; simpl; constructor.
  - rewrite list_elem_of_filter. by intros [? _].
  - by apply NoDup_filter.
Qed.

Lemma filter_none {A} (P : A -> Prop) `{forall x, Decision (P x)} (l : list A) :
  (forall x, x ∈ l -> ~ P x) -> filter P l = [].
Proof.
  induction l as [|y l IH]; intros HP; [done|].
  rewrite filter_cons_False by (apply HP; left).
  apply IH. intros x Hx. apply HP. by right.
Qed.

Lemma filter_eq_NoDup (v : string) (l : list string) :
  NoDup l -> v ∈ l -> filter (fun val => Some v = Some val) l = [v].
Proof.
  induction 1 as [|y l Hy Hl IH]; intros Hin; [by apply elem_of_nil in Hin|].
  apply elem_of_cons in Hin.
  destruct (decide (v = y)) as [->|Hne].
  - rewrite filter_cons_True by done. f_equal.
    apply filter_none. intros z Hz [=]. by subst.
  - rewrite filter_cons_False by congruence. apply IH. by destruct Hin.
Qed.

Lemma elem_of_not_na {A} (series : list (option A)) (v : A) :
  v ∈ not_na series <-> Some v ∈ series.
Proof.
  unfold not_na. rewrite list_elem_of_omap. split.
  - intros (o & Ho & Hv). simpl in Hv. by subst.
  - intros H. by exists (Some v).
Qed.

Lemma cat_processer_unfold (series : list (option string)) (title na_action : string) :
  cat_processer series title na_action = Ok (concat (cat_label title na_action <$> series)).
Proof.
  unfold cat_processer. do 2 f_equal. apply list_fmap_ext. intros i x Hx.
  apply list_elem_of_lookup_2 in Hx.
  unfold cat_cell, cat_label, cat_scan. destruct x as [v|]; simpl.
  - rewrite filter_eq_NoDup; [done|apply NoDup_unique|].
    by apply elem_of_unique, elem_of_not_na.
  - repeat destruct (String.eqb _ _); try done.
    by rewrite filter_none.
Qed.

(** ** The missing-value policy *)

Lemma policy_switch_fmap {A} (title : string) (series : list (option A))
    (f_ex f_lab : option A -> option string) :
  f_ex None = None -> f_lab None = Some (title +:+ "_is_na") ->
  (forall x, exists l, f_ex (Some x) = Some l /\ f_lab (Some x) = Some l) ->
  policy_switch title series (Ok (f_ex <$> series)) (Ok (f_lab <$> series)).
Proof.
  intros Hex Hlab Hsome. simpl. rewrite !length_fmap.
  split; [done|]. split; [done|]. split.
  - intros i Hi. by rewrite !list_lookup_fmap, Hi; simpl; rewrite Hex, Hlab.
  - intros i x Hi. destruct (Hsome x) as (l & H1 & H2). exists l.
    by rewrite !list_lookup_fmap, Hi; simpl; rewrite H1, H2.
Qed.

Lemma cat_processer_recognized (series : list (option string)) (title na_action : string) :
  na_action = "label" \/ na_action = "return_na" ->
  cat_processer series title na_action = Ok (cat_label1 title na_action <$> series).
Proof.
  intros Hna. rewrite cat_processer_unfold. f_equal.
  rewrite <- (concat_singletons (cat_label1 title na_action) series).
  f_equal. apply list_fmap_ext. intros i [v|] _; [done|].
  by destruct Hna as [-> | ->].
Qed.

Lemma cat_processer_unrecognized (series : list (option string)) (title na_action : string) :
  na_action <> "label" -> na_action <> "return_na" ->
  cat_processer series title na_action =
  Ok ((fun v => Some (title +:+ "_is_" +:+ v)) <$> not_na series).
Proof.
  intros H1 H2. rewrite cat_processer_unfold. f_equal.
  apply String.eqb_neq in H1, H2.
  induction series as [|[v|] series IH]; csimpl; [done| |].
  - by rewrite IH.
  - by rewrite H1, H2.
Qed.

Lemma bucket_of_None (cv : list Z) : bucket_of None cv = length cv.
Proof. induction cv as [|c cv IH]; simpl; [done|]. by rewrite IH. Qed.

Lemma policy_switch_labelers :
  (forall dt (series : list (option Z)) title cutoffs,
      policy_switch title series
        (float_processer dt series title cutoffs "return_na")
        (float_processer dt series title cutoffs "label")) /\
  (forall (series : list (option Z)) title which_yes,
      policy_switch title series
        (boolean_processer series title which_yes "return_na")
        (boolean_processer series title which_yes "label")) /\
  (forall (series : list (option string)) title,
      policy_switch title series
        (cat_processer series title "return_na")
        (cat_processer series title "label")).
Proof.
  split; [|split].
  - intros dt series title cutoffs. rewrite !float_processer_unfold.
    destruct (cutoff_vals series cutoffs) as [cv|e]; [|done].
    cbn [bind]. destruct (str_labels dt title cutoffs cv) as [labels|e]; [|done].
    cbn [bind]. apply policy_switch_fmap; [done|done|].
    intros x. by eexists.
  - intros series title which_yes. rewrite !boolean_processer_unfold.
    apply policy_switch_fmap; [done|done|].
    intros x. unfold boolean_label. simpl. destruct (bool_decide _); by eexists.
  - intros series title. rewrite !cat_processer_recognized by auto.
    apply policy_switch_fmap; [done|done|].
    intros x. by eexists.
Qed.

Lemma policy_switch_token_added {A} (title : string) (series : list (option A))
    (r_label : result (list (option string))) (ex : list (option string)) :
  policy_switch title series (Ok ex) r_label ->
  exists lab, r_label = Ok lab /\ token_added title (isna <$> series) ex lab.
Proof.
  destruct r_label as [lab|e]; simpl; [|done].
  intros (Hex & Hlab & Hna & Hval). exists lab. split; [done|].
  unfold token_added. rewrite length_fmap. split; [done|]. split; [done|]. split.
  - intros i Hi. rewrite list_lookup_fmap in Hi.
    destruct (series !! i) as [[x|]|] eqn:Hs; try done. by apply Hna.
  - intros i Hi. rewrite list_lookup_fmap in Hi.
    destruct (series !! i) as [[x|]|] eqn:Hs; try done. by eapply Hval.
Qed.

(** C10, as amended. For each of the three labelers, on a column and a
    configuration for which the call under "return_na" (exclude) returns,
    the call under "label" returns too, and its output is the first with
    one token "<title>_is_na" added at each missing cell, where the first
    had the missing marker, the label of every non-missing cell being
    unchanged. *)
Theorem missing_policy_switch (c : labeler_call) (ex : list (option string)) :
  call_with c "return_na" = Ok ex ->
  exists lab, call_with c "label" = Ok lab /\
              token_added (call_title c) (call_missing c) ex lab.
Proof.
  destruct policy_switch_labelers as (Hfloat & Hbool & Hcat).
  destruct c as [dt series title cutoffs|series title which_yes|series title];
    simpl; intros Hex.
  - apply policy_switch_token_added. rewrite <- Hex. apply Hfloat.
  - apply policy_switch_token_added. rewrite <- Hex. apply Hbool.
  - apply policy_switch_token_added. rewrite <- Hex. apply Hcat.
Qed.

Lemma missing_policy_switch_witness :
  (exists lab,
      float_processer float64 [Some 1; None; Some 5; Some 7; Some 8] "x" 4 "label" = Ok lab /\
      token_added "x" [false; true; false; false; false]
        [Some "x_lessthan_5.0"; None; Some "x_lessthan_5.0"; Some "x_lessthan_7.0";
         Some "x_lessthan_8.0"] lab) /\
  (exists lab,
      boolean_processer [Some 0; None; Some 1] "b" 1 "label" = Ok lab /\
      token_added "b" [false; true; false] [Some "b_no"; None; Some "b_yes"] lab) /\
  (exists lab,
      cat_processer [Some "a"; None; Some "b"] "c" "label" = Ok lab /\
      token_added "c" [false; true; false] [Some "c_is_a"; None; Some "c_is_b"] lab).
Proof.
  split; [|split].
  - apply (missing_policy_switch
             (call_float float64 [Some 1; None; Some 5; Some 7; Some 8] "x" 4)).
    vm_compute. reflexivity.
  - apply (missing_policy_switch (call_boolean [Some 0; None; Some 1] "b" 1)).
    vm_compute. reflexivity.
  - apply (missing_policy_switch (call_cat [Some "a"; None; Some "b"] "c")).
    vm_compute. reflexivity.
Defined.

(** C10 as stated fails: on a column of two missing values the Continuous
    labeler, four bins, raises [KeyError] under "return_na" and under
    "label" alike, so that the switch adds no token. *)
Lemma missing_policy_switch_no_token :
  float_processer float64 [None; None] "title" 4 "return_na" = Raise KeyError /\
  float_processer float64 [None; None] "title" 4 "label" = Raise KeyError /\
  ~ (exists lab, float_processer float64 [None; None] "title" 4 "label" = Ok lab /\
                 lab !! 0%nat = Some (Some "title_is_na")).
Proof.
  assert (float_processer float64 [None; None] "title" 4 "label" = Raise KeyError)
    as H by (by vm_compute).
  split; [by vm_compute|]. split; [done|].
  intros (lab & Hlab & _). by rewrite H in Hlab.
Qed.

(** C7, as amended. A policy that is not one of the two recognized values
    raises nothing of its own: the Boolean labeler labels a missing cell
    "<title>_no", the Categorical labeler emits nothing for it, so that its
    output has one entry per non-missing cell, and the Continuous labeler,
    which fails exactly when it fails under "return_na", gives it the final
    "morethan" label. *)
Theorem unrecognized_policy_falls_through (na_action : string) :
  na_action <> "label" -> na_action <> "return_na" -> unrecognized_policy na_action.
Proof.
  intros H1 H2. split; [|split].
  - intros series title which_yes. rewrite boolean_processer_unfold. f_equal.
    apply list_fmap_ext. intros _ x _. unfold boolean_label.
    apply String.eqb_neq in H1, H2. rewrite H1, H2, !andb_false_r.
    by destruct (bool_decide _).
  - intros series title. by apply cat_processer_unrecognized.
  - intros dt series title cutoffs. split; [|split].
    + intros (e & _ & He). by destruct (exn_name_not_spec_kind e).
    + intros e. rewrite !float_processer_unfold.
      destruct (cutoff_vals series cutoffs) as [cv|e']; [|done].
      cbn [bind]. by destruct (str_labels dt title cutoffs cv).
    + intros out Hout. apply float_processer_Ok in Hout as (cv & Hcv & _ & _ & ->).
      exists cv. split; [done|]. split; [by rewrite length_fmap|].
      intros i Hi. rewrite list_lookup_fmap, Hi. simpl. unfold float_label.
      apply String.eqb_neq in H1, H2. rewrite H1, H2, !andb_false_r.
      unfold label_of. by rewrite bucket_of_None, (lookup_ge_None_2 cv).
Qed.

Lemma unrecognized_policy_falls_through_witness : unrecognized_policy "drop".
Proof. apply unrecognized_policy_falls_through; discriminate. Defined.

(** C7 as stated fails: under the policy "drop" the Categorical labeler
    returns a shorter Series and the Continuous labeler labels the missing
    cell as a value; neither raises [InvalidConfiguration]. *)
Lemma unrecognized_policy_not_InvalidConfiguration :
  cat_processer [Some "a"; None; Some "b"] "title" "drop"
    = Ok [Some "title_is_a"; Some "title_is_b"] /\
  float_processer float64 [Some 1; None; Some 2] "title" 2 "drop"
    = Ok [Some "title_lessthan_2.0"; Some "title_morethan_2.0"; Some "title_lessthan_2.0"] /\
  ~ raises (cat_processer [Some "a"; None; Some "b"] "title" "drop") "InvalidConfiguration" /\
  ~ raises (float_processer float64 [Some 1; None; Some 2] "title" 2 "drop")
      "InvalidConfiguration".
Proof.
  split; [by vm_compute|]. split; [by vm_compute|].
  split; intros (e & He & _); by vm_compute in He.
Qed.

(** ** list_featurize_series *)

Lemma list_featurize_series_classify (series : Series) (title : string)
    (cutoffs which_yes : Z) (na_action : string) :
  list_featurize_series series title cutoffs which_yes na_action =
  match classify series, series with
  | Categorical, ObjSeries cells => cat_processer cells title na_action
  | Boolean, NumSeries _ cells => boolean_processer cells title which_yes na_action
  | Continuous, NumSeries dt cells => float_processer dt cells title cutoffs na_action
  | _, _ => Raise TypeError
  end.
Proof.
  destruct series as [dt cells|cells]; simpl; [|done]. by destruct (only_boolean cells).
Qed.

(** The test of the dispatcher compares the distinct non-missing values,
    in their order of first appearance, with the array [0, 1]. *)
Lemma only_boolean_first_appearance (cells : list (option Z)) :
  only_boolean cells = true <-> not_na (unique cells) = [0; 1].
Proof. unfold only_boolean. apply bool_decide_eq_true. Qed.

Lemma only_boolean_sound (cells : list (option Z)) :
  only_boolean cells = true -> distinct_values_0_1 cells.
Proof.
  rewrite only_boolean_first_appearance. intros H z.
  rewrite <- (elem_of_unique (Some z) cells), <- elem_of_not_na, H.
  rewrite !elem_of_cons, elem_of_nil. tauto.
Qed.

(** C4. The column [1, 0, 1, 0] has the distinct values {0, 1}, yet its
    values appear as 1 then 0: the dispatcher does not select the Boolean
    labeler, and the column is binned as a continuous one. The same values
    in the order 0 then 1 are Boolean. *)
Theorem classify_depends_on_order (title : string) :
  let cells := Some <$> [1; 0; 1; 0] in
  distinct_values_0_1 cells /\
  classify (NumSeries int64 cells) = Continuous /\
  classify (NumSeries int64 (Some <$> [0; 1; 0; 1])) = Boolean /\
  list_featurize_series (NumSeries int64 cells) title 4 1 "return_na" =
    Ok (Some <$> [title +:+ "_lessthan_1"; title +:+ "_lessthan_0";
                  title +:+ "_lessthan_1"; title +:+ "_lessthan_0"]).
Proof.
  intros cells. split; [|split; [|split]].
  - intros z. unfold cells. simpl. rewrite !elem_of_cons, elem_of_nil.
    split; [intros [H|[H|[H|[H|[]]]]]; inversion H; auto | intros [-> | ->]; auto].
  - by vm_compute.
  - by vm_compute.
  - unfold list_featurize_series.
    replace (only_boolean cells) with false by (by vm_compute).
    rewrite float_processer_unfold.
    replace (cutoff_vals cells 4) with (Ok [0; 1; 1]) by (by vm_compute).
    reflexivity.
Qed.

(** ** Execution of the module *)

(** C5. Executed with global names that do not include [df], the module
    raises [NameError] at the [def] of [list_featurize_df], whose default
    for [index_list] reads [df]: the function is never bound and no call
    of it can be made. *)
Theorem processing_py_NameError (globals : gset string) :
  "df" ∉ globals -> processing_py globals = Raise NameError.
Proof.
  intros Hdf. unfold processing_py, exec_import, exec_def. cbn [bind traverse].
  unfold load_name.
  rewrite bool_decide_eq_true_2
    by (unfold builtins; rewrite !elem_of_union, !elem_of_singleton; intuition).
  cbn [bind]. rewrite bool_decide_eq_false_2; [done|].
  unfold builtins. rewrite !elem_of_union, !elem_of_singleton.
  intros H. decompose [or] H; try discriminate. done.
Qed.

Lemma processing_py_NameError_witness : processing_py ∅ = Raise NameError.
Proof. apply processing_py_NameError. apply not_elem_of_empty. Defined.

(** ** list_featurize_df *)

Lemma reindex_id (n : nat) (col : list (option string)) :
  length col = n -> reindex n col = col.
Proof.
  intros <-. unfold reindex. by rewrite take_ge, Nat.sub_diag, app_nil_r.
Qed.

(** A column of the frame's length is stored as it is. *)
Lemma frame_setitem_aligned (n : nat) (df_out : LabelFrame) (column : string)
    (out_series : list (option string)) :
  length out_series = n ->
  lf_index df_out = n \/ (lf_columns df_out = [] /\ lf_index df_out = 0%nat) ->
  frame_setitem df_out column out_series =
  {| lf_index := n; lf_columns := lf_columns df_out ++ [(column, out_series)] |}.
Proof.
  intros Hlen Hinv. unfold frame_setitem.
  destruct (lf_index df_out =? 0)%nat eqn:Hi;
    destruct (length out_series =? 0)%nat eqn:Hl; simpl.
  - apply Nat.eqb_eq in Hi, Hl. rewrite Hi, reindex_id by done. f_equal. lia.
  - apply Nat.eqb_eq in Hi. apply Nat.eqb_neq in Hl.
    destruct Hinv as [Hn | [Hc _]]; [lia|]. by rewrite Hlen, Hc.
  - apply Nat.eqb_neq in Hi. destruct Hinv as [Hn | [_ H0]]; [|lia].
    by rewrite Hn, reindex_id.
  - apply Nat.eqb_neq in Hi. destruct Hinv as [Hn | [_ H0]]; [|lia].
    by rewrite Hn, reindex_id.
Qed.

(** Under the default policy every labeler returns one entry per cell. *)
Lemma list_featurize_series_default_length (series : Series) (title : string)
    (cutoffs which_yes : Z) (out : list (option string)) :
  list_featurize_series series title cutoffs which_yes default_na_action = Ok out ->
  length out = shape0 series.
Proof.
  destruct series as [dt cells|cells]; simpl.
  - destruct (only_boolean cells).
    + rewrite boolean_processer_unfold. intros [= <-]. by rewrite length_fmap.
    + intros H. apply float_processer_Ok in H as (cv & _ & _ & _ & ->).
      by rewrite length_fmap.
  - rewrite cat_processer_recognized by (by right). intros [= <-].
    by rewrite length_fmap.
Qed.

Lemma featurize_columns_Ok (n : nat) (columns : list (string * Series))
    (labelled : list (list (option string))) (df_out : LabelFrame) :
  labelled_columns columns labelled ->
  Forall (fun c => shape0 (snd c) = n) columns ->
  lf_index df_out = n \/ (lf_columns df_out = [] /\ lf_index df_out = 0%nat) ->
  exists df_out', featurize_columns columns df_out = Ok df_out' /\
    lf_index df_out' = (if columns is [] then lf_index df_out else n) /\
    snd <$> lf_columns df_out' = (snd <$> lf_columns df_out) ++ labelled.
Proof.
  intros Hlab. revert df_out.
  induction Hlab as [|[column series] out columns labelled Hout Hlab IH];
    intros df_out Hshape Hinv.
  - exists df_out. by rewrite app_nil_r.
  - apply Forall_cons in Hshape as [Hs Hshape]. simpl in Hout, Hs. simpl.
    rewrite Hout. cbn [bind].
    pose proof (list_featurize_series_default_length _ _ _ _ _ Hout) as Hlen.
    rewrite (frame_setitem_aligned n) by (done || congruence).
    destruct (IH {| lf_index := n;
                    lf_columns := lf_columns df_out ++ [(column, out)] |} Hshape)
      as (df_out' & Hf & Hi & Hc); [by left|].
    exists df_out'. split; [done|]. split.
    + rewrite Hi. by destruct columns.
    + rewrite Hc. simpl. by rewrite fmap_app, <- app_assoc.
Qed.

Lemma not_na_fmap {A B} (f : A -> option B) (l : list A) : not_na (f <$> l) = omap f l.
Proof.
  unfold not_na. induction l as [|x l IH]; csimpl; [done|].
  rewrite IH. by destruct (f x).
Qed.

Lemma row_items_length (labelled : list (list (option string))) (i : nat) :
  (length (row_items labelled i) <= length labelled)%nat.
Proof.
  unfold row_items. induction labelled as [|col labelled IH]; csimpl; [lia|].
  destruct (mjoin (col !! i)); simpl; lia.
Qed.

(** C9, as amended. On a valid dataframe that has a column, or no row,
    and whose columns are all labelled without an error, a Transaction
    Store is returned; it has one itemset per row, in row order, and the
    itemset of row [i] holds, in column order, at most one label per column:
    the column's label at [i] unless it is the missing marker. *)
Theorem list_featurize_df_rows (df : DataFrame) (labelled : list (list (option string))) :
  valid_df df ->
  labelled_columns (df_columns df) labelled ->
  df_columns df <> [] \/ df_shape0 df = 0%nat ->
  exists store, list_featurize_df df = Ok store /\
    length store = df_shape0 df /\
    forall i, (i < df_shape0 df)%nat ->
      store !! i = Some (row_items labelled i) /\
      (length (row_items labelled i) <= length (df_columns df))%nat.
Proof.
  intros [_ Hshape] Hlab Hcase. unfold list_featurize_df.
  destruct (featurize_columns_Ok (df_shape0 df) _ _ empty_frame Hlab Hshape)
    as (df_out & -> & Hi & Hc); [by right|].
  cbn [bind]. simpl in Hi, Hc.
  assert (traverse (fun i => let! row := frame_loc df_out i in Ok (not_na row))
            (seq 0 (df_shape0 df)) = Ok (row_items labelled <$> seq 0 (df_shape0 df)))
    as Hstore.
  { apply traverse_total. intros i Hin. apply elem_of_seq in Hin.
    assert (i < lf_index df_out)%nat as Hlt.
    { destruct Hcase as [Hne|H0]; [|lia].
      rewrite Hi. destruct (df_columns df); [done|lia]. }
    unfold frame_loc.
    replace (i <? lf_index df_out)%nat with true by (symmetry; by apply Nat.ltb_lt).
    cbn [bind]. rewrite not_na_fmap. unfold row_items. rewrite <- Hc.
    f_equal. clear. induction (lf_columns df_out) as [|c l IH]; csimpl; [done|].
    by rewrite IH. }
  rewrite Hstore. eexists. split; [done|].
  split; [by rewrite length_fmap, length_seq|].
  intros i Hlt. split.
  - by rewrite list_lookup_fmap, lookup_seq_lt.
  - rewrite (Forall2_length _ _ _ Hlab). apply row_items_length.
Qed.

Lemma list_featurize_df_rows_witness :
  exists store, list_featurize_df example_df = Ok store /\
    length store = df_shape0 example_df /\
    forall i, (i < df_shape0 example_df)%nat ->
      store !! i = Some (row_items example_labelled i) /\
      (length (row_items example_labelled i) <= length (df_columns example_df))%nat.
Proof.
  apply list_featurize_df_rows.
  - split; [compute_done|]. repeat constructor.
  - unfold labelled_columns, example_df, example_labelled. simpl.
    repeat (constructor; [by vm_compute|]). constructor.
  - left. discriminate.
Defined.

(** C9 as stated fails: a dataframe with one row and no column is valid
    and no column of it raises an error, yet no store is returned; reading
    row 0 of the empty [df_out] raises [KeyError]. *)
Lemma list_featurize_df_rows_without_column :
  let df := {| df_shape0 := 1; df_columns := [] |} in
  valid_df df /\ labelled_columns (df_columns df) [] /\
  list_featurize_df df = Raise KeyError /\
  ~ exists store, list_featurize_df df = Ok store /\ length store = df_shape0 df.
Proof.
  intros df.
  assert (list_featurize_df df = Raise KeyError) as H by (by vm_compute).
  split; [split; constructor|]. split; [constructor|]. split; [done|].
  intros (store & Hstore & _). by rewrite H in Hstore.
Qed.

(** * Further properties of the labelers *)

(** ** Lookups by label *)

Lemma series_getitem_list_Raise {A} (s : list A) (keys : list Z) (e : exn) :
  series_getitem_list s keys = Raise e -> e = KeyError.
Proof.
  unfold series_getitem_list. induction keys as [|k keys IH]; simpl; [done|].
  destruct (_ && _); [|by intros [= <-]].
  destruct (s !! Z.to_nat k); [|by intros [= <-]].
  cbn [bind]. destruct (traverse _ keys) as [vs|e']; simpl; [done|].
  intros [= <-]. by apply IH.
Qed.

Lemma series_getitem_list_absent {A} (s : list A) (keys : list Z) (k : Z) :
  k ∈ keys -> ~ (0 <= k < Z.of_nat (length s)) ->
  series_getitem_list s keys = Raise KeyError.
Proof.
  intros Hin Hk.
  destruct (series_getitem_list s keys) as [vs|e] eqn:Hget.
  - apply list_elem_of_lookup in Hin as [i Hi].
    destruct (traverse_lookup _ _ _ Hget i k Hi) as (y & _ & Hy).
    replace ((0 <=? k) && (k <? Z.of_nat (length s))) with false in Hy; [done|].
    symmetry. apply andb_false_iff. rewrite Z.leb_gt, Z.ltb_ge. lia.
  - by rewrite (series_getitem_list_Raise _ _ _ Hget).
Qed.

Lemma series_getitem_list_present {A} (s : list A) (keys : list Z) :
  Forall (fun k => 0 <= k < Z.of_nat (length s)) keys ->
  exists vs, series_getitem_list s keys = Ok vs.
Proof.
  unfold series_getitem_list. induction 1 as [|k keys Hk _ [vs IH]]; simpl; [eauto|].
  replace ((0 <=? k) && (k <? Z.of_nat (length s))) with true
    by (symmetry; apply andb_true_iff; rewrite Z.leb_le, Z.ltb_lt; lia).
  destruct (lookup_lt_is_Some_2 s (Z.to_nat k)) as [x ->]; [lia|].
  cbn [bind]. rewrite IH. simpl. eauto.
Qed.

(** ** When [float_processer] fails *)

Lemma cutoff_vals_below_2 (series : list (option Z)) (cutoffs : Z) :
  cutoffs < 2 -> cutoff_vals series cutoffs = Ok [].
Proof.
  intros Hc. unfold cutoff_vals, cutoff_val_ind. by rewrite range_nonpos by lia.
Qed.

Lemma str_labels_succeeds (dt : dtype) (title : string) (cutoffs : Z) (cv : list Z) :
  length cv = Z.to_nat (cutoffs - 1) -> 2 <= cutoffs ->
  exists labels, str_labels dt title cutoffs cv = Ok labels.
Proof.
  intros Hlen Hc. unfold str_labels.
  destruct (lookup_lt_is_Some_2 cv (Z.to_nat (cutoffs - 2))) as [c Hlast]; [lia|].
  replace (cutoffs - 2) with (Z.of_nat (Z.to_nat (cutoffs - 2))) by lia.
  rewrite (ndarray_getitem_nat _ _ _ Hlast). simpl. eauto.
Qed.

Lemma float_processer_Raise (dt : dtype) (series : list (option Z))
    (title : string) (cutoffs : Z) (na_action : string) (e : exn) :
  float_processer dt series title cutoffs na_action = Raise e <->
  cutoff_vals series cutoffs = Raise e \/ (cutoffs < 2 /\ e = IndexError).
Proof.
  rewrite float_processer_unfold.
  destruct (Z.lt_ge_cases cutoffs 2) as [Hc|Hc].
  - rewrite cutoff_vals_below_2 by done. cbn [bind].
    unfold str_labels. rewrite ndarray_getitem_nil. simpl. split.
    + intros [= <-]. by right.
    + intros [|[_ ->]]; done.
  - destruct (cutoff_vals series cutoffs) as [cv|e'] eqn:Hcv; cbn [bind].
    + destruct (str_labels_succeeds dt title cutoffs cv) as [labels ->];
        [by eapply cutoff_vals_length|done|].
      simpl. split; [done|]. intros [|[? _]]; [done|lia].
    + split; [intros [= <-]; by left|]. intros [[= <-]|[? _]]; [done|lia].
Qed.

(** A call of [float_processer] raises exactly what the computation of the
    cutoffs raises, and [IndexError] when [cutoffs < 2]: the labelling loop
    never fails, and the title, the dtype and the policy have no part in
    a failure. *)
Theorem float_processer_Raise_iff (dt : dtype) (series : list (option Z))
    (title : string) (cutoffs : Z) (na_action : string) (e : exn) :
  float_processer dt series title cutoffs na_action = Raise e <->
  cutoff_vals series cutoffs = Raise e \/ (cutoffs < 2 /\ e = IndexError).
Proof. apply float_processer_Raise. Qed.

(** When [float_processer] returns, its output has one entry per cell, and
    the missing marker stands exactly at the missing cells of a call under
    "return_na". *)
Theorem float_processer_entries (dt : dtype) (series : list (option Z))
    (title : string) (cutoffs : Z) (na_action : string) (out : list (option string)) :
  float_processer dt series title cutoffs na_action = Ok out ->
  length out = length series /\
  forall i, out !! i = Some None <->
            series !! i = Some None /\ na_action = "return_na".
Proof.
  intros H. apply float_processer_Ok in H as (cv & _ & _ & _ & ->).
  split; [by rewrite length_fmap|]. intros i. rewrite list_lookup_fmap.
  destruct (series !! i) as [[x|]|] eqn:Hi; simpl; unfold float_label; simpl.
  - split; [done|]. by intros [? _].
  - destruct (String.eqb_spec na_action "label") as [->|Hl]; simpl.
    + split; [done|]. by intros [_ ?].
    + destruct (String.eqb_spec na_action "return_na") as [->|Hr]; simpl.
      * done.
      * split; [done|]. by intros [_ ?].
  - split; [done|]. by intros [? _].
Qed.

Lemma float_processer_entries_witness :
  length [Some "t_lessthan_9.0"; None; Some "t_lessthan_9.0"; Some "t_lessthan_9.0"]
    = length [Some 1; None; Some 9; Some 5] /\
  forall i, [Some "t_lessthan_9.0"; None; Some "t_lessthan_9.0"; Some "t_lessthan_9.0"]
              !! i = Some None <->
            [Some 1; None; Some 9; Some 5] !! i = Some None /\
            "return_na" = "return_na".
Proof.
  apply (float_processer_entries float64 [Some 1; None; Some 9; Some 5] "t" 2 "return_na").
  vm_compute. reflexivity.
Defined.

Lemma cutoff_vals_elem_of (series : list (option Z)) (cutoffs : Z) (cv : list Z) :
  cutoff_vals series cutoffs = Ok cv ->
  forall c, c ∈ cv -> Some c ∈ series.
Proof.
  intros H c Hin. unfold cutoff_vals in H.
  apply bind_Ok in H as (ind & _ & H).
  assert (Forall (fun c => c ∈ sort_values (not_na series)) cv) as Hall.
  { clear Hin. revert cv H. unfold series_getitem_list.
    induction ind as [|k ind IH]; simpl; intros cv H.
    - inversion H. constructor.
    - apply bind_Ok in H as (y & Hy & H). apply bind_Ok in H as (ys & Hys & [= <-]).
      constructor; [|by apply IH].
      destruct (_ && _); [|done].
      destruct (_ !! Z.to_nat k) eqn:Hl; [|done].
      inversion Hy; subst. by eapply list_elem_of_lookup_2. }
  rewrite Forall_forall in Hall. specialize (Hall c Hin).
  apply elem_of_not_na. apply list_elem_of_In.
  eapply Permutation_in; [apply sort_values_perm|]. by apply list_elem_of_In.
Qed.

(** Every cutoff is a value of the column. *)
Theorem cutoff_vals_in_column (series : list (option Z)) (cutoffs : Z) (cv : list Z) :
  cutoff_vals series cutoffs = Ok cv ->
  forall c, c ∈ cv -> Some c ∈ series.
Proof. apply cutoff_vals_elem_of. Qed.

Lemma cutoff_vals_in_column_witness :
  cutoff_vals (Some <$> [1; 2; 3; 4; 5; 6; 7; 8]) 4 = Ok [3; 5; 7] /\
  forall c, c ∈ [3; 5; 7] -> Some c ∈ (Some <$> [1; 2; 3; 4; 5; 6; 7; 8]).
Proof.
  assert (cutoff_vals (Some <$> [1; 2; 3; 4; 5; 6; 7; 8]) 4 = Ok [3; 5; 7]) as H
    by (vm_compute; reflexivity).
  split; [exact H|]. exact (cutoff_vals_in_column _ 4 _ H).
Defined.

(** ** The default of four bins *)

(** With four bins, a column with fewer than four non-missing values makes
    [float_processer] raise [KeyError]: the last computed label is the
    number of values, one past the labels of the sorted values. *)
Theorem float_processer_four_bins_few_values (dt : dtype) (series : list (option Z))
    (title na_action : string) :
  (length (not_na series) < 4)%nat ->
  float_processer dt series title 4 na_action = Raise KeyError.
Proof.
  intros Hn. apply float_processer_Raise. left. unfold cutoff_vals.
  pose proof (sort_values_length (not_na series)) as Hlen.
  destruct (length (not_na series)) as [|[|[|[|n]]]] eqn:Hl; [| | | |lia].
  - replace (cutoff_val_ind 4 (Z.of_nat 0)) with (Ok [0; 0; 0]) by (by vm_compute).
    cbn [bind]. apply (series_getitem_list_absent _ _ 0); [by left|]. rewrite Hlen. lia.
  - replace (cutoff_val_ind 4 (Z.of_nat 1)) with (Ok [1; 1; 1]) by (by vm_compute).
    cbn [bind]. apply (series_getitem_list_absent _ _ 1); [by left|]. rewrite Hlen. lia.
  - replace (cutoff_val_ind 4 (Z.of_nat 2)) with (Ok [1; 1; 2]) by (by vm_compute).
    cbn [bind]. apply (series_getitem_list_absent _ _ 2);
      [by do 2 right; left|]. rewrite Hlen. lia.
  - replace (cutoff_val_ind 4 (Z.of_nat 3)) with (Ok [1; 2; 3]) by (by vm_compute).
    cbn [bind]. apply (series_getitem_list_absent _ _ 3);
      [by do 2 right; left|]. rewrite Hlen. lia.
Qed.

Lemma float_processer_four_bins_few_values_witness :
  float_processer float64 [Some 2; None; Some 7; Some 4] "title" 4 "label"
  = Raise KeyError.
Proof. apply float_processer_four_bins_few_values. simpl. lia. Defined.

Lemma labels_present_4_to_1000 (n : Z) : 4 <= n <= 1000 -> labels_present 4 n = true.
Proof.
  intros Hn.
  assert (forallb (labels_present 4) (Z.of_nat <$> seq 4 997) = true) as Hall
    by (by vm_compute).
  rewrite forallb_forall in Hall. apply Hall.
  apply list_elem_of_In, list_elem_of_fmap. exists (Z.to_nat n).
  split; [lia|]. apply elem_of_seq. lia.
Qed.

(** With four bins, [float_processer] returns on every column with four
    to a thousand non-missing values (checked for each count). *)
Theorem float_processer_four_bins_returns (dt : dtype) (series : list (option Z))
    (title na_action : string) :
  (4 <= length (not_na series) <= 1000)%nat ->
  exists out, float_processer dt series title 4 na_action = Ok out /\
              length out = length series.
Proof.
  intros Hn.
  pose proof (labels_present_4_to_1000 (Z.of_nat (length (not_na series)))) as Hp.
  unfold labels_present in Hp.
  destruct (cutoff_val_ind 4 _) as [ind|e] eqn:Hind; [|by discriminate Hp; lia].
  destruct (series_getitem_list_present (sort_values (not_na series)) ind) as [cv Hcv].
  { rewrite sort_values_length. apply Forall_forall. intros k Hk.
    specialize (Hp ltac:(lia)). rewrite forallb_forall in Hp.
    apply list_elem_of_In, Hp, andb_true_iff in Hk. rewrite Z.leb_le, Z.ltb_lt in Hk.
    done. }
  assert (cutoff_vals series 4 = Ok cv) as Hcutoffs.
  { unfold cutoff_vals. by rewrite Hind. }
  rewrite float_processer_unfold, Hcutoffs. cbn [bind].
  destruct (str_labels_succeeds dt title 4 cv) as [labels ->];
    [by eapply cutoff_vals_length|lia|].
  simpl. eexists. split; [done|]. by rewrite length_fmap.
Qed.

Lemma float_processer_four_bins_returns_witness :
  exists out, float_processer int64 (Some <$> [4; 1; 3; 2; 5]) "title" 4 "label" = Ok out /\
              length out = length (Some <$> [4; 1; 3; 2; 5]).
Proof. apply float_processer_four_bins_returns. simpl. lia. Defined.

(** When [float_processer] returns, a least value of the column carries
    the label of the first cutoff. *)
Theorem float_processer_minimum (dt : dtype) (series : list (option Z))
    (title : string) (cutoffs : Z) (na_action : string) (out : list (option string)) :
  float_processer dt series title cutoffs na_action = Ok out ->
  exists cv c, cutoff_vals series cutoffs = Ok cv /\ cv !! 0%nat = Some c /\
    forall i x, series !! i = Some (Some x) ->
      (forall y, Some y ∈ series -> x <= y) ->
      out !! i = Some (Some (title +:+ "_lessthan_" +:+ str dt c)).
Proof.
  intros H. apply float_processer_Ok in H as (cv & Hcv & Hne & _ & ->).
  destruct cv as [|c cv]; [done|]. exists (c :: cv), c.
  split; [done|]. split; [done|].
  intros i x Hi Hmin. rewrite list_lookup_fmap, Hi. simpl.
  unfold float_label, label_of. simpl.
  assert (x <= c) as Hle.
  { apply Hmin. eapply cutoff_vals_elem_of; [done|]. by left. }
  by replace (x <=? c) with true by lia.
Qed.

Lemma float_processer_minimum_witness :
  exists cv c, cutoff_vals (Some <$> [4; 1; 3; 2; 5]) 4 = Ok cv /\ cv !! 0%nat = Some c /\
    forall i x, (Some <$> [4; 1; 3; 2; 5]) !! i = Some (Some x) ->
      (forall y, Some y ∈ (Some <$> [4; 1; 3; 2; 5]) -> x <= y) ->
      (Some <$> ["t_lessthan_4"; "t_lessthan_3"; "t_lessthan_3"; "t_lessthan_3";
                 "t_lessthan_5"]) !! i
      = Some (Some ("t" +:+ "_lessthan_" +:+ str int64 c)).
Proof.
  apply (float_processer_minimum int64 (Some <$> [4; 1; 3; 2; 5]) "t" 4 "label").
  vm_compute. reflexivity.
Defined.

(** ** Labels *)

Lemma append_inj_r (s a b : string) : s +:+ a = s +:+ b -> a = b.
Proof. induction s as [|c s IH]; simpl; [done|]. intros [= H]. by apply IH. Qed.

Lemma elem_of_concat {A} (x : A) (ls : list (list A)) :
  x ∈ concat ls -> exists l, x ∈ l /\ l ∈ ls.
Proof.
  induction ls as [|l ls IH]; simpl; [by intros ?%elem_of_nil|].
  rewrite elem_of_app. intros [Hx|Hx].
  - exists l. split; [done|by left].
  - destruct (IH Hx) as (l' & ? & ?). exists l'. split; [done|by right].
Qed.

Lemma prefix_append (s t : string) : String.prefix s (s +:+ t) = true.
Proof.
  induction s as [|c s IH]; simpl; [by destruct t|].
  by destruct (Ascii.ascii_dec c c).
Qed.

(** Under a recognized policy the Categorical labeler returns one entry per
    cell, and two non-missing cells carry the same label exactly when they
    hold the same value. *)
Theorem cat_processer_value_keyed (series : list (option string))
    (title na_action : string) :
  na_action = "label" \/ na_action = "return_na" ->
  exists out, cat_processer series title na_action = Ok out /\
    length out = length series /\
    forall i j v w, series !! i = Some (Some v) -> series !! j = Some (Some w) ->
      (out !! i = out !! j <-> v = w).
Proof.
  intros Hna. rewrite cat_processer_recognized by done. eexists. split; [done|].
  split; [by rewrite length_fmap|].
  intros i j v w Hi Hj. rewrite !list_lookup_fmap, Hi, Hj. simpl. split.
  - intros [= H]. by apply append_inj_r, append_inj_r in H.
  - by intros ->.
Qed.

Lemma cat_processer_value_keyed_witness :
  exists out, cat_processer [Some "a"; None; Some "b"; Some "a"] "title" "label" = Ok out /\
    length out = length [Some "a"; None; Some "b"; Some "a"] /\
    forall i j v w, [Some "a"; None; Some "b"; Some "a"] !! i = Some (Some v) ->
      [Some "a"; None; Some "b"; Some "a"] !! j = Some (Some w) ->
      (out !! i = out !! j <-> v = w).
Proof. apply cat_processer_value_keyed. by left. Defined.

(** Under the policy "label" a cell holding the string "na" and a missing
    cell carry the same label, "<title>_is_na". *)
Theorem cat_processer_na_collision (series : list (option string)) (title : string)
    (out : list (option string)) (i j : nat) :
  cat_processer series title "label" = Ok out ->
  series !! i = Some (Some "na") -> series !! j = Some None ->
  out !! i = Some (Some (title +:+ "_is_na")) /\ out !! j = out !! i.
Proof.
  rewrite cat_processer_recognized by (by left). intros [= <-] Hi Hj.
  by rewrite !list_lookup_fmap, Hi, Hj.
Qed.

Lemma cat_processer_na_collision_witness :
  [Some "t_is_na"; Some "t_is_b"; Some "t_is_na"] !! 0%nat = Some (Some ("t" +:+ "_is_na")) /\
  [Some "t_is_na"; Some "t_is_b"; Some "t_is_na"] !! 2%nat
  = [Some "t_is_na"; Some "t_is_b"; Some "t_is_na"] !! 0%nat.
Proof.
  apply (cat_processer_na_collision [Some "na"; Some "b"; None] "t"); reflexivity.
Defined.

(** ** The dispatcher *)


(** A column taken for a boolean one holds only 0 and 1 beside missing
    cells, and each of them is labelled "<title>_yes" when it equals
    [which_yes] and "<title>_no" otherwise. *)
Theorem list_featurize_series_boolean (dt : dtype) (cells : list (option Z))
    (title : string) (cutoffs which_yes : Z) (na_action : string) :
  only_boolean cells = true ->
  exists out,
    list_featurize_series (NumSeries dt cells) title cutoffs which_yes na_action = Ok out /\
    length out = length cells /\
    forall i x, cells !! i = Some (Some x) ->
      (x = 0 \/ x = 1) /\
      out !! i = Some (Some (if bool_decide (x = which_yes) then title +:+ "_yes"
                             else title +:+ "_no")).
Proof.
  intros Hb. simpl. rewrite Hb, boolean_processer_unfold. eexists. split; [done|].
  split; [by rewrite length_fmap|]. intros i x Hi. split.
  - apply (only_boolean_sound cells Hb). by eapply list_elem_of_lookup_2.
  - rewrite list_lookup_fmap, Hi. simpl. unfold boolean_label. simpl.
    destruct (decide (x = which_yes)) as [->|Hne].
    + by rewrite !bool_decide_eq_true_2.
    + rewrite !bool_decide_eq_false_2; [done|done|congruence].
Qed.

Lemma list_featurize_series_boolean_witness :
  exists out,
    list_featurize_series (NumSeries float64 [Some 0; None; Some 1; Some 1]) "title" 4 1
      "return_na" = Ok out /\
    length out = length [Some 0; None; Some 1; Some 1] /\
    forall i x, [Some 0; None; Some 1; Some 1] !! i = Some (Some x) ->
      (x = 0 \/ x = 1) /\
      out !! i = Some (Some (if bool_decide (x = 1) then "title" +:+ "_yes"
                             else "title" +:+ "_no")).
Proof. apply list_featurize_series_boolean. reflexivity. Defined.

(** Every label that [list_featurize_series] returns for a column starts
    with the title of the column. *)
Theorem list_featurize_series_title_prefix (series : Series) (title : string)
    (cutoffs which_yes : Z) (na_action : string) (out : list (option string)) :
  list_featurize_series series title cutoffs which_yes na_action = Ok out ->
  forall label, Some label ∈ out -> String.prefix title label = true.
Proof.
  intros H label Hin.
  assert (exists rest, label = title +:+ rest) as [rest ->];
    [|apply prefix_append].
  destruct series as [dt cells|cells]; simpl in H.
  - destruct (only_boolean cells).
    + rewrite boolean_processer_unfold in H. injection H as <-.
      apply list_elem_of_fmap in Hin as (x & Hx & _). unfold boolean_label in Hx.
      repeat destruct (_ && _); try destruct (bool_decide _);
        inversion Hx; eauto.
    + apply float_processer_Ok in H as (cv & _ & _ & _ & ->).
      apply list_elem_of_fmap in Hin as (x & Hx & _).
      unfold float_label, label_of in Hx.
      repeat destruct (_ && _); try destruct (cv !! _); inversion Hx; eauto.
  - rewrite cat_processer_unfold in H. injection H as <-.
    apply elem_of_concat in Hin as (l & Hin & Hl).
    apply list_elem_of_fmap in Hl as ([v|] & -> & _); simpl in Hin.
    + apply list_elem_of_singleton in Hin. inversion Hin; eauto.
    + repeat destruct (String.eqb _ _);
        try apply list_elem_of_singleton in Hin; try apply elem_of_nil in Hin;
        try done; inversion Hin; eauto.
Qed.

Lemma list_featurize_series_title_prefix_witness :
  list_featurize_series (ObjSeries [Some "a"; None; Some "b"]) "title" 4 1 "label"
    = Ok [Some "title_is_a"; Some "title_is_na"; Some "title_is_b"] /\
  forall label,
    Some label ∈ [Some "title_is_a"; Some "title_is_na"; Some "title_is_b"] ->
    String.prefix "title" label = true.
Proof.
  assert (list_featurize_series (ObjSeries [Some "a"; None; Some "b"]) "title" 4 1 "label"
          = Ok [Some "title_is_a"; Some "title_is_na"; Some "title_is_b"]) as H
    by (vm_compute; reflexivity).
  split; [exact H|].
  exact (list_featurize_series_title_prefix _ "title" 4 1 "label" _ H).
Defined.

(** ** The row assembler *)

Lemma featurize_columns_Raise (pre post : list (string * Series)) (column : string)
    (series : Series) (e : exn) (df_out : LabelFrame) :
  Forall (fun c => exists out,
            list_featurize_series (snd c) (fst c) default_cutoffs default_which_yes
              default_na_action = Ok out) pre ->
  list_featurize_series series column default_cutoffs default_which_yes
    default_na_action = Raise e ->
  featurize_columns (pre ++ (column, series) :: post) df_out = Raise e.
Proof.
  intros Hpre He. revert df_out.
  induction Hpre as [|[c s] pre [out Hout] _ IH]; intros df_out; simpl.
  - by rewrite He.
  - simpl in Hout. rewrite Hout. cbn [bind]. apply IH.
Qed.

(** The exception of the first column that cannot be labelled ends
    [list_featurize_df]: no store is returned for the other columns. *)
Theorem list_featurize_df_propagates (df : DataFrame) (pre post : list (string * Series))
    (column : string) (series : Series) (e : exn) :
  df_columns df = pre ++ (column, series) :: post ->
  Forall (fun c => exists out,
            list_featurize_series (snd c) (fst c) default_cutoffs default_which_yes
              default_na_action = Ok out) pre ->
  list_featurize_series series column default_cutoffs default_which_yes
    default_na_action = Raise e ->
  list_featurize_df df = Raise e.
Proof.
  intros Hcols Hpre He. unfold list_featurize_df.
  by rewrite Hcols, (featurize_columns_Raise _ _ _ _ e).
Qed.

Lemma list_featurize_df_propagates_witness :
  list_featurize_df
    {| df_shape0 := 2;
       df_columns := [("c", ObjSeries [Some "a"; Some "b"]);
                      ("x", NumSeries float64 [None; None]);
                      ("b", NumSeries int64 [Some 0; Some 1])] |}
  = Raise KeyError.
Proof.
  apply (list_featurize_df_propagates _ [("c", ObjSeries [Some "a"; Some "b"])]
           [("b", NumSeries int64 [Some 0; Some 1])] "x"
           (NumSeries float64 [None; None])).
  - reflexivity.
  - repeat constructor. eexists. vm_compute. reflexivity.
  - vm_compute. reflexivity.
Defined.

Lemma list_featurize_df_no_column_store (df : DataFrame) :
  df_columns df = [] ->
  list_featurize_df df = if decide (df_shape0 df = 0%nat) then Ok [] else Raise KeyError.
Proof.
  intros Hcols. unfold list_featurize_df. rewrite Hcols. simpl.
  destruct (df_shape0 df) as [|n]; simpl; [done|].
  by destruct (decide (S n = 0%nat)).
Qed.

(** A dataframe without columns gives the empty store when it has no row,
    and [KeyError] when it has one: [df_out] has no row to read. *)
Theorem list_featurize_df_no_column (df : DataFrame) :
  df_columns df = [] ->
  list_featurize_df df = if decide (df_shape0 df = 0%nat) then Ok [] else Raise KeyError.
Proof. apply list_featurize_df_no_column_store. Qed.

Lemma list_featurize_df_no_column_witness :
  list_featurize_df {| df_shape0 := 3; df_columns := [] |} = Raise KeyError.
Proof. apply (list_featurize_df_no_column {| df_shape0 := 3; df_columns := [] |}). reflexivity. Defined.

Lemma featurize_columns_Ok_inv (columns : list (string * Series))
    (df_out df_out' : LabelFrame) :
  featurize_columns columns df_out = Ok df_out' ->
  exists labelled, labelled_columns columns labelled.
Proof.
  revert df_out. induction columns as [|[c s] columns IH]; intros df_out H.
  - exists []. constructor.
  - simpl in H. apply bind_Ok in H as (out & Hout & H).
    destruct (IH _ H) as [labelled Hl]. exists (out :: labelled). by constructor.
Qed.

(** The store of a dataframe that has a column, in closed form. *)
Lemma list_featurize_df_store (df : DataFrame) (labelled : list (list (option string))) :
  valid_df df -> labelled_columns (df_columns df) labelled -> df_columns df <> [] ->
  list_featurize_df df = Ok (row_items labelled <$> seq 0 (df_shape0 df)).
Proof.
  intros [_ Hshape] Hlab Hne. unfold list_featurize_df.
  destruct (featurize_columns_Ok (df_shape0 df) _ _ empty_frame Hlab Hshape)
    as (df_out & -> & Hi & Hc); [by right|].
  cbn [bind]. simpl in Hi, Hc.
  assert (lf_index df_out = df_shape0 df) as Hidx by (by destruct (df_columns df)).
  apply traverse_total. intros i Hin. apply elem_of_seq in Hin.
  unfold frame_loc.
  replace (i <? lf_index df_out)%nat with true by (symmetry; apply Nat.ltb_lt; lia).
  cbn [bind]. rewrite not_na_fmap. unfold row_items. rewrite <- Hc.
  f_equal. clear. induction (lf_columns df_out) as [|c l IH]; csimpl; [done|].
  by rewrite IH.
Qed.

(** Under the default policy the entry of a labelled column is a label
    exactly where the cell is not missing. *)
Lemma default_policy_entry (series : Series) (title : string) (cutoffs which_yes : Z)
    (out : list (option string)) (i : nat) :
  list_featurize_series series title cutoffs which_yes default_na_action = Ok out ->
  is_Some (mjoin (out !! i)) <-> cell_present series i = true.
Proof.
  intros H. unfold cell_present.
  assert (forall {A} (f : option A -> option string) (cells : list (option A)),
             f None = None -> (forall x, is_Some (f (Some x))) ->
             is_Some (mjoin ((f <$> cells) !! i)) <->
             bool_decide (is_Some (mjoin (cells !! i))) = true) as Hfmap.
  { intros A f cells Hnone Hsome. rewrite bool_decide_eq_true, list_lookup_fmap.
    destruct (cells !! i) as [[x|]|]; simpl; [|by rewrite Hnone|done].
    split; [by eauto|]. intros _. apply Hsome. }
  destruct series as [dt cells|cells]; simpl in H.
  - destruct (only_boolean cells).
    + rewrite boolean_processer_unfold in H. injection H as <-.
      apply Hfmap; [done|]. intros x. unfold boolean_label. simpl.
      by destruct (bool_decide _).
    + apply float_processer_Ok in H as (cv & _ & _ & _ & ->).
      apply Hfmap; [done|]. intros x. by eexists.
  - rewrite cat_processer_recognized in H by (by right). injection H as <-.
    apply Hfmap; [done|]. intros x. by eexists.
Qed.

Lemma row_items_present (columns : list (string * Series))
    (labelled : list (list (option string))) (i : nat) :
  labelled_columns columns labelled ->
  length (row_items labelled i) =
  length (filter (fun c => cell_present (snd c) i = true) columns).
Proof.
  unfold row_items. induction 1 as [|c out columns labelled Hout _ IH]; [done|].
  csimpl. pose proof (default_policy_entry _ _ _ _ _ i Hout) as Hentry.
  destruct (mjoin (out !! i)) as [l|] eqn:Hl.
  - rewrite filter_cons_True by (apply Hentry; eauto). simpl. by rewrite IH.
  - rewrite filter_cons_False; [done|].
    intros Hp. apply Hentry in Hp as [? ?]. done.
Qed.

(** In a returned store the itemset of a row has as many labels as the
    row has cells that are not missing. *)
Theorem list_featurize_df_itemset_size (df : DataFrame) (store : list (list string)) :
  valid_df df -> list_featurize_df df = Ok store ->
  forall i items, store !! i = Some items ->
    length items =
    length (filter (fun c => cell_present (snd c) i = true) (df_columns df)).
Proof.
  intros Hvalid Hstore i items Hi.
  destruct (df_columns df) as [|c columns] eqn:Hcols.
  - rewrite (list_featurize_df_no_column_store df Hcols) in Hstore.
    destruct (decide _); [|done]. injection Hstore as <-. done.
  - assert (exists labelled, labelled_columns (df_columns df) labelled) as [labelled Hlab].
    { unfold list_featurize_df in Hstore. apply bind_Ok in Hstore as (df_out & H & _).
      by eapply featurize_columns_Ok_inv. }
    rewrite (list_featurize_df_store df labelled) in Hstore by (done || congruence).
    injection Hstore as <-.
    rewrite list_lookup_fmap in Hi.
    destruct (seq 0 (df_shape0 df) !! i) as [j|] eqn:Hj; [|done].
    apply lookup_seq in Hj as [-> _]. injection Hi as <-.
    rewrite <- Hcols. by apply row_items_present.
Qed.

Lemma list_featurize_df_itemset_size_witness :
  valid_df example_df /\
  forall i items,
    [["x_lessthan_5.0"; "c_is_a"; "b_no"]; [];
     ["x_lessthan_5.0"; "c_is_b"; "b_yes"];
     ["x_lessthan_7.0"; "c_is_a"; "b_no"]; ["x_lessthan_8.0"]] !! i = Some items ->
    length items =
    length (filter (fun c => cell_present (snd c) i = true) (df_columns example_df)).
Proof.
  assert (valid_df example_df) as Hvalid
    by (split; [compute_done|repeat constructor]).
  split; [exact Hvalid|].
  apply (list_featurize_df_itemset_size example_df _ Hvalid).
  vm_compute. reflexivity.
Defined.
